(** * simple-nd-base: the [FileDatabase] class over a modelled filesystem

    A shallow embedding of [FileDatabase<DataType>] (the ndjson record
    store) and of the promise-based serializer [lockAndExecute].

    - Part 1: text of the backing file: [readline]'s line splitting and
      [String.prototype.trim].
    - Part 2: the record codec ([JSON.parse] / [JSON.stringify]) as an
      interface.
    - Part 3: the filesystem ([fs.stat], [fs.writeFile], [fs.unlink],
      [fs.rename], [fs.createReadStream]) as a state-and-error monad with
      injectable failures and a log of the calls made.
    - Part 4: the methods of [FileDatabase], run one call at a time.
    - Part 5: the serializer [lockAndExecute] as a transition system over
      the promises it creates, for several calls in flight. *)

From Stdlib Require Import Ascii String.
From stdpp Require Import base gmap strings list.

(** ** Part 1: text *)

Module Text.

Definition LF : ascii := "010"%char.
Definition CR : ascii := "013"%char.

Definition is_LF (c : ascii) : bool := Ascii.eqb c LF.
Definition is_CR (c : ascii) : bool := Ascii.eqb c CR.

(** The white space [trim] removes, over the ASCII range: TAB, LF, VT,
    FF, CR and SPACE. *)
Definition is_space (c : ascii) : bool :=
  match c with
  | "009" | "010" | "011" | "012" | "013" | " " => true
  | _ => false
  end%char.

(** [segments s] cuts [s] at every line ending the way [readline] does
    with [crlfDelay: Infinity]: LF, CR LF (one ending) and a lone CR.
    The result is never empty; its last element is the text after the
    last line ending. *)
Fixpoint segments (s : string) : list string :=
  match s with
  | EmptyString => [EmptyString]
  | String c rest =>
      if is_LF c then EmptyString :: segments rest
      else if is_CR c then
        match rest with
        | String c' _ =>
            if is_LF c' then segments rest
            else EmptyString :: segments rest
        | EmptyString => EmptyString :: segments rest
        end
      else
        match segments rest with
        | l :: ls => String c l :: ls
        | [] => [String c EmptyString]
        end
  end.

(** When the stream ends, [readline] emits the pending text as a last
    line only when it is not empty. *)
Fixpoint drop_last_empty (ls : list string) : list string :=
  match ls with
  | [] => []
  | [l] => match l with EmptyString => [] | _ => [l] end
  | l :: ls' => l :: drop_last_empty ls'
  end.

(** The lines [for await (const line of rlInterface)] iterates over. *)
Definition readline (content : string) : list string :=
  drop_last_empty (segments content).

(** [s] without its leading characters in the class [sp]. *)
Fixpoint strip_start (sp : ascii -> bool) (s : string) : string :=
  match s with
  | EmptyString => EmptyString
  | String c rest => if sp c then strip_start sp rest else s
  end.

(** [s] without its trailing characters in the class [sp]. *)
Fixpoint strip_end (sp : ascii -> bool) (s : string) : string :=
  match s with
  | EmptyString => EmptyString
  | String c rest =>
      match strip_end sp rest with
      | EmptyString => if sp c then EmptyString else String c EmptyString
      | rest' => String c rest'
      end
  end.

(** [line.trim()] *)
Definition trim (s : string) : string :=
  strip_end is_space (strip_start is_space s).

(** Truthiness of a JavaScript string: every string but the empty one. *)
Definition truthy (s : string) : bool :=
  match s with
  | EmptyString => false
  | String _ _ => true
  end.

(** No line ending inside [s]. *)
Fixpoint one_line (s : string) : bool :=
  match s with
  | EmptyString => true
  | String c rest => negb (is_LF c) && negb (is_CR c) && one_line rest
  end.

End Text.

(** ** Part 2: the record codec *)

(** [JSON.parse] and [JSON.stringify] at the record type [DataType].
    [JSON.parse] throws a [SyntaxError] on text that is not JSON: [None]. *)
Class Codec (DataType : Type) := {
  JSON_parse : string -> option DataType;
  JSON_stringify : DataType -> string
}.

(** What the store needs of the codec for a written record to be read
    back: the text of a record is one non-blank line, and parses to the
    record. *)
Class LawfulCodec (DataType : Type) `{Codec DataType} : Prop := {
  stringify_one_line : forall r : DataType, Text.one_line (JSON_stringify r) = true;
  stringify_not_blank : forall r : DataType, Text.truthy (Text.trim (JSON_stringify r)) = true;
  parse_stringify : forall r : DataType, JSON_parse (JSON_stringify r) = Some r
}.

(** A concrete codec: the JSON literals [null], [true] and [false].
    [JSON.parse] accepts JSON white space (TAB, LF, CR, SPACE) around a
    value. *)
Inductive literal := JNull | JTrue | JFalse.

Definition is_json_space (c : ascii) : bool :=
  match c with
  | "009" | "010" | "013" | " " => true
  | _ => false
  end%char.

Definition literal_parse (line : string) : option literal :=
  let t := Text.strip_end is_json_space (Text.strip_start is_json_space line) in
  if String.eqb t "null" then Some JNull
  else if String.eqb t "true" then Some JTrue
  else if String.eqb t "false" then Some JFalse
  else None.

Definition literal_stringify (v : literal) : string :=
  match v with
  | JNull => "null"
  | JTrue => "true"
  | JFalse => "false"
  end.

#[global] Instance literal_codec : Codec literal := {
  JSON_parse := literal_parse;
  JSON_stringify := literal_stringify
}.

(** ** Part 3: the filesystem *)

Inductive error :=
  | ENOENT                 (* no such file *)
  | EIO                    (* any other failure of a filesystem call *)
  | SyntaxError            (* thrown by [JSON.parse] *)
  | Thrown (msg : string). (* a [throw] of the store's own *)

Inductive result (A : Type) :=
  | Ok (a : A)
  | Err (e : error).
Arguments Ok {A} a.
Arguments Err {A} e.

Inductive syscall :=
  | Stat (path : string)
  | WriteFile (path : string) (doAppend : bool)
  | Unlink (path : string)
  | Rename (oldName newName : string)
  | ReadStream (path : string).

(** The state of the world: the files by path, the failures still to be
    injected (one entry per filesystem call to come, [true] makes that
    call fail with [EIO] and no effect; past the end of the list no call
    is made to fail), and the calls made so far. *)
Record world := World {
  files : gmap string string;
  faults : list bool;
  calls : list syscall
}.

Definition M (A : Type) : Type := world -> result A * world.

Definition ret {A} (a : A) : M A := fun w => (Ok a, w).

Definition throw {A} (e : error) : M A := fun w => (Err e, w).

Definition bind {A B} (m : M A) (k : A -> M B) : M B :=
  fun w =>
    match m w with
    | (Ok a, w') => k a w'
    | (Err e, w') => (Err e, w')
    end.

(** [m.catch(h)], or [try { m } catch (e) { h(e) }] *)
Definition catch {A} (m : M A) (h : error -> M A) : M A :=
  fun w =>
    match m w with
    | (Ok a, w') => (Ok a, w')
    | (Err e, w') => h e w'
    end.

Notation "'let*' x ':=' m 'in' k" := (bind m (fun x => k))
  (at level 10, x pattern, m at level 100, k at level 200).

(** Whether the next filesystem call is made to fail. *)
Definition injected (fl : list bool) : bool :=
  match fl with
  | true :: _ => true
  | _ => false
  end.

(** One filesystem call: logged, then failed if a failure is injected
    here, run otherwise. *)
Definition syscall_step {A} (c : syscall)
    (run : gmap string string -> result A * gmap string string) : M A :=
  fun w =>
    let log := calls w ++ [c] in
    let fl := tail (faults w) in
    if injected (faults w) then (Err EIO, World (files w) fl log)
    else
      let '(r, fs') := run (files w) in
      (r, World fs' fl log).

(** [fs.stat]: the size of the file. *)
Definition sys_stat (path : string) : M nat :=
  syscall_step (Stat path) (fun fs =>
    match fs !! path with
    | Some content => (Ok (String.length content), fs)
    | None => (Err ENOENT, fs)
    end).

(** [fs.writeFile(path, contents)] replaces the contents, with
    [{flag: "a"}] it appends; both create a missing file. *)
Definition sys_writeFile (path contents : string) (doAppend : bool) : M unit :=
  syscall_step (WriteFile path doAppend) (fun fs =>
    let old := if doAppend then default EmptyString (fs !! path) else EmptyString in
    (Ok tt, <[path := old +:+ contents]> fs)).

(** [fs.unlink] *)
Definition sys_unlink (path : string) : M unit :=
  syscall_step (Unlink path) (fun fs =>
    match fs !! path with
    | Some _ => (Ok tt, delete path fs)
    | None => (Err ENOENT, fs)
    end).

(** [fs.rename]: replaces [newName] if it exists. *)
Definition sys_rename (oldName newName : string) : M unit :=
  syscall_step (Rename oldName newName) (fun fs =>
    match fs !! oldName with
    | Some content => (Ok tt, <[newName := content]> (delete oldName fs))
    | None => (Err ENOENT, fs)
    end).

(** [fs.createReadStream], read to its end. *)
Definition sys_read (path : string) : M string :=
  syscall_step (ReadStream path) (fun fs =>
    match fs !! path with
    | Some content => (Ok content, fs)
    | None => (Err ENOENT, fs)
    end).

(** ** Part 4: the methods of [FileDatabase] *)

(** The fields of an instance the file operations read. [lockedPromise]
    is the subject of Part 5. *)
Record FileDatabase := {
  ndjsonFilename : string;
  tmpFileName : string
}.

(** [constructor(ndjsonFilename)] *)
Definition new_FileDatabase (ndjsonFilename : string) : FileDatabase :=
  {| ndjsonFilename := ndjsonFilename;
     tmpFileName := ndjsonFilename +:+ ".tmp.ndjson" |}.

(** [getTmpWriter] *)
Definition getTmpWriter (this : FileDatabase) : FileDatabase :=
  new_FileDatabase (tmpFileName this).

Definition renameFile (oldName newName : string) : M unit := sys_rename oldName newName.

Definition deleteFile (fileName : string) : M unit := sys_unlink fileName.

Definition writeFile (fileName contents : string) (doAppend : bool) : M unit :=
  sys_writeFile fileName contents doAppend.

(** [fileExists]: [false] on any error of [fs.stat]. *)
Definition fileExists (fileName : string) : M bool :=
  catch (let* _ := sys_stat fileName in ret true) (fun _ => ret false).

(** [lockAndExecute] for one call at a time: the awaited [lockedPromise]
    is settled, and the promise returned settles as [callback] does. *)
Definition lockAndExecute {A} (callback : M A) (waitForUnlock : bool) : M A :=
  callback.

(** [getDatabaseSize] *)
Definition getDatabaseSize (this : FileDatabase) : M nat :=
  sys_stat (ndjsonFilename this).

Section Store.

Context {DataType : Type} `{Codec DataType}.

(** The loop [for await (const line of rlInterface)] of [forEachRecord].
    The variables a callback closes over and assigns are its accumulator
    [acc]; its answer is the boolean the interface types it as, [false]
    to stop. *)
Fixpoint for_lines {A} (callback : A -> DataType -> M (bool * A))
    (lines : list string) (acc : A) : M A :=
  match lines with
  | [] => ret acc
  | line :: rest =>
      if Text.truthy (Text.trim line) then
        match JSON_parse line with
        | None => throw SyntaxError
        | Some data =>
            let* answer := callback acc data in
            let (doContinue, acc') := answer in
            if doContinue then for_lines callback rest acc' else ret acc'
        end
      else for_lines callback rest acc
  end.

(** [forEachRecord]. Closing the [readline] interface and the stream
    after the loop changes no file. *)
Definition forEachRecord {A} (this : FileDatabase)
    (callback : A -> DataType -> M (bool * A)) (init : A)
    (waitForUnlock : bool) : M A :=
  lockAndExecute
    (let* exists_ := fileExists (ndjsonFilename this) in
     if negb exists_ then ret init
     else
       let* content := sys_read (ndjsonFilename this) in
       for_lines callback (Text.readline content) init)
    waitForUnlock.

Definition getAllRecords (this : FileDatabase) (waitForUnlock : bool)
    : M (list DataType) :=
  forEachRecord this
    (fun records data => ret (true, records ++ [data])) [] waitForUnlock.

Definition getNumRecords (this : FileDatabase) (waitForUnlock : bool) : M nat :=
  let* rc := getAllRecords this waitForUnlock in ret (length rc).

(** The predicates callers pass are functions of the record. *)
Definition findRecord (this : FileDatabase) (callback : DataType -> bool)
    (waitForUnlock : bool) : M (option DataType) :=
  forEachRecord this
    (fun foundRecord record =>
       let isAccepted := callback record in
       ret (negb isAccepted, if isAccepted then Some record else foundRecord))
    None waitForUnlock.

Definition findRecords (this : FileDatabase) (callback : DataType -> bool)
    (waitForUnlock : bool) : M (list DataType) :=
  forEachRecord this
    (fun foundRecords record =>
       let isAccepted := callback record in
       ret (true, if isAccepted then foundRecords ++ [record] else foundRecords))
    [] waitForUnlock.

(** [records.reduce((str, record) => str + JSON.stringify(record) + "\n", "")] *)
Definition newJson (records : list DataType) : string :=
  fold_left
    (fun str record => (str +:+ JSON_stringify record) +:+ String Text.LF EmptyString)
    records EmptyString.

Definition addRecords (this : FileDatabase) (records : list DataType) : M unit :=
  lockAndExecute (writeFile (ndjsonFilename this) (newJson records) true) true.

Definition addRecord (this : FileDatabase) (record : DataType) : M unit :=
  addRecords this [record].

Definition deleteAllRecords (this : FileDatabase) : M unit :=
  lockAndExecute (writeFile (ndjsonFilename this) EmptyString false) true.

Definition updateRecords (this : FileDatabase) (findCallback : DataType -> bool)
    (newRecord : DataType) : M unit :=
  lockAndExecute
    (let tmpWriter := getTmpWriter this in
     let* _ := deleteAllRecords tmpWriter in
     let* isUpdated :=
       forEachRecord this
         (fun (_ : bool) record =>
            let isAccepted := findCallback record in
            let updateRecord := if isAccepted then newRecord else record in
            let* _ := addRecord tmpWriter updateRecord in
            ret (true, true))
         false false in
     if isUpdated then
       let* _ := catch (deleteFile (ndjsonFilename this)) (fun _ => ret tt) in
       renameFile (tmpFileName this) (ndjsonFilename this)
     else ret tt)
    true.

Definition deleteRecords (this : FileDatabase) (findCallback : DataType -> bool)
    : M unit :=
  lockAndExecute
    (let tmpWriter := getTmpWriter this in
     let* _ := deleteAllRecords tmpWriter in
     let* isUpdated :=
       forEachRecord this
         (fun (isUpdated : bool) record =>
            let doDelete := findCallback record in
            if negb doDelete then
              let* _ := addRecord tmpWriter record in
              ret (true, isUpdated)
            else ret (true, true))
         false false in
     if isUpdated then
       let* _ := catch (deleteFile (ndjsonFilename this)) (fun _ => ret tt) in
       catch (renameFile (tmpFileName this) (ndjsonFilename this))
         (fun _ => throw (Thrown "Could not properly delete database entry"))
     else
       catch (deleteFile (tmpFileName this)) (fun _ => ret tt))
    true.

End Store.

Arguments newJson {DataType _} records : simpl never.

(** ** Part 5: the serializer [lockAndExecute], several calls in flight *)

Module Serializer.

(** The state of a promise. *)
Inductive promise :=
  | Pending
  | Fulfilled
  | Rejected (e : error).

(** The promise a callback's outcome settles. *)
Definition settled (o : result unit) : promise :=
  match o with
  | Ok _ => Fulfilled
  | Err e => Rejected e
  end.

(** [promise.catch(() => {})] *)
Definition catch_ignore (p : promise) : promise :=
  match p with
  | Pending => Pending
  | Fulfilled => Fulfilled
  | Rejected _ => Fulfilled
  end.

(** The values the field [lockedPromise] takes: [Promise.resolve()] from
    the field's initialiser, then [promise.catch(() => {})] for the
    promise of the call numbered [i]. *)
Inductive lock :=
  | Resolved
  | CatchOf (i : nat).

(** Where a call of [lockAndExecute] stands. *)
Inductive phase :=
  | Awaiting (l : lock)       (* suspended at [await this.lockedPromise],
                                 [l] the value the field had when read *)
  | Running (waited : bool)   (* [callback()] started and not settled: its
                                 file access is in flight *)
  | Done (o : result unit).   (* the promise of the call is settled *)

(** One store instance: its field [lockedPromise], and the calls of
    [lockAndExecute] made on it so far, numbered from 0. *)
Record serializer := {
  lockedPromise : lock;
  phases : list phase
}.

Definition init : serializer := {| lockedPromise := Resolved; phases := [] |}.

(** The promise [lockAndExecute] returned for call [i]. *)
Definition promise_of (g : serializer) (i : nat) : promise :=
  match phases g !! i with
  | Some (Done o) => settled o
  | _ => Pending
  end.

Definition lock_state (g : serializer) (l : lock) : promise :=
  match l with
  | Resolved => Fulfilled
  | CatchOf i => catch_ignore (promise_of g i)
  end.

Inductive event :=
  | Call (waitForUnlock : bool)          (* [lockAndExecute] is called *)
  | Resume (i : nat)                     (* call [i] continues after its [await] *)
  | Settle (i : nat) (o : result unit).  (* the callback of call [i] ends *)

(** One step of the event loop.
    - [Call true] runs to [await this.lockedPromise] and suspends on the
      promise the field holds now.
    - [Call false] skips the [await]: the callback starts and the field is
      assigned at once.
    - [Resume i] needs the awaited promise settled. Had it rejected, the
      [await] would throw and the call fail without running its callback.
      Otherwise [new Promise(...)] starts the callback and
      [this.lockedPromise = promise.catch(() => {})] is assigned.
    - [Settle i o] ends a running callback with outcome [o]. *)
Definition step (g : serializer) (ev : event) : option serializer :=
  match ev with
  | Call true =>
      Some {| lockedPromise := lockedPromise g;
              phases := phases g ++ [Awaiting (lockedPromise g)] |}
  | Call false =>
      Some {| lockedPromise := CatchOf (length (phases g));
              phases := phases g ++ [Running false] |}
  | Resume i =>
      match phases g !! i with
      | Some (Awaiting l) =>
          match lock_state g l with
          | Pending => None
          | Fulfilled =>
              Some {| lockedPromise := CatchOf i;
                      phases := <[i := Running true]> (phases g) |}
          | Rejected e =>
              Some {| lockedPromise := lockedPromise g;
                      phases := <[i := Done (Err e)]> (phases g) |}
          end
      | _ => None
      end
  | Settle i o =>
      match phases g !! i with
      | Some (Running _) =>
          Some {| lockedPromise := lockedPromise g;
                  phases := <[i := Done o]> (phases g) |}
      | _ => None
      end
  end.

Fixpoint run (g : serializer) (evs : list event) : option serializer :=
  match evs with
  | [] => Some g
  | ev :: rest =>
      match step g ev with
      | Some g' => run g' rest
      | None => None
      end
  end.

Definition is_ordered_running (ph : phase) : bool :=
  match ph with
  | Running true => true
  | _ => false
  end.

(** The number of calls made with [waitForUnlock = true] whose callback
    is running. *)
Definition ordered_in_flight (g : serializer) : nat :=
  length (List.filter is_ordered_running (phases g)).

Definition is_awaiting (ph : phase) : bool :=
  match ph with
  | Awaiting _ => true
  | _ => false
  end.

(** The steps of callers that pass [waitForUnlock = true] only, and make
    a call only when no earlier call is still suspended at its [await]. *)
Definition step_spaced (g : serializer) (ev : event) : option serializer :=
  match ev with
  | Call true => if existsb is_awaiting (phases g) then None else step g ev
  | Call false => None
  | _ => step g ev
  end.

Fixpoint run_spaced (g : serializer) (evs : list event) : option serializer :=
  match evs with
  | [] => Some g
  | ev :: rest =>
      match step_spaced g ev with
      | Some g' => run_spaced g' rest
      | None => None
      end
  end.

(** What holds of the serializer as long as callers pass
    [waitForUnlock = true] and make a call only when no earlier one is
    still suspended: every suspended call awaits the promise the field
    holds, at most one call is suspended, and a running call is the one
    the field tracks. *)
Definition spaced_inv (g : serializer) : Prop :=
  (forall j l, phases g !! j = Some (Awaiting l) -> l = lockedPromise g) /\
  (forall j j' l l',
     phases g !! j = Some (Awaiting l) -> phases g !! j' = Some (Awaiting l') ->
     j = j') /\
  (forall i b, phases g !! i = Some (Running b) -> lockedPromise g = CatchOf i).

End Serializer.

(** ** Part 6: notions the statements use *)

Section Notions.

Context {DataType : Type} `{Codec DataType}.

(** The records a full scan of [lines] visits: [None] when a non-blank
    line does not parse. *)
Fixpoint parse_lines (lines : list string) : option (list DataType) :=
  match lines with
  | [] => Some []
  | line :: rest =>
      if Text.truthy (Text.trim line) then
        match JSON_parse line with
        | None => None
        | Some data => cons data <$> parse_lines rest
        end
      else parse_lines rest
  end.

(** The records of a file with contents [content]. *)
Definition records_of (content : string) : option (list DataType) :=
  parse_lines (Text.readline content).

(** What [updateRecords] writes for a record. *)
Definition updated (findCallback : DataType -> bool) (newRecord record : DataType)
    : DataType :=
  if findCallback record then newRecord else record.

(** The callbacks [updateRecords] and [deleteRecords] hand to
    [forEachRecord] have one shape: write [keep record] to the temporary
    file when there is one, and raise [isUpdated] when [touch record]. *)
Definition rewrite_cb (tmpWriter : FileDatabase)
    (keep : DataType -> option DataType) (touch : DataType -> bool)
    (isUpdated : bool) (record : DataType) : M (bool * bool) :=
  match keep record with
  | Some out =>
      let* _ := addRecord tmpWriter out in
      ret (true, isUpdated || touch record)
  | None => ret (true, isUpdated || touch record)
  end.

(** The states a replace may leave, for a backing file that held [S]
    and records to be rewritten by [post]. After a success the backing
    file is the one of before, or holds the rewritten records. After a
    failure the backing file is the one of before, or it is gone, the
    call that failed is the rename, and the temporary file holds the
    rewritten records. *)
Definition replace_left (name S : string)
    (post : list DataType -> list DataType) (run : result unit * world) : Prop :=
  let tmp := tmpFileName (new_FileDatabase name) in
  let w' := snd run in
  match fst run with
  | Ok _ =>
      files w' !! name = Some S \/
      exists R, records_of S = Some R /\
                files w' !! name = Some (newJson (post R))
  | Err _ =>
      files w' !! name = Some S \/
      (files w' !! name = None /\
       last (calls w') = Some (Rename tmp name) /\
       exists R, records_of S = Some R /\
                 files w' !! tmp = Some (newJson (post R)))
  end.

(** The backing file and the temporary file are not both absent. *)
Definition one_file_left (name : string) (run : result unit * world) : Prop :=
  let tmp := tmpFileName (new_FileDatabase name) in
  is_Some (files (snd run) !! name) \/ is_Some (files (snd run) !! tmp).


(** The bytes [addRecords] appends for [records]: for each record its
    text and one line feed. *)
Definition appended_size (records : list DataType) : nat :=
  list_sum (map (fun r => S (String.length (JSON_stringify r))) records).

End Notions.

(** [m] changes no file outside [paths]. *)
Definition confined {A} (paths : list string) (m : M A) : Prop :=
  forall w p, p ∉ paths -> files (snd (m w)) !! p = files w !! p.

Definition nl : string := String Text.LF EmptyString.

(** The store of the worked examples, on the file [db]. *)
Definition db : FileDatabase := new_FileDatabase "db".

Definition is_JTrue (v : literal) : bool :=
  match v with
  | JTrue => true
  | _ => false
  end.

(** A backing file of three records. *)
Definition three_records : string :=
  "false" +:+ nl +:+ "true" +:+ nl +:+ "null" +:+ nl.

(** * Properties *)

#[global] Instance literal_lawful : LawfulCodec literal.
Proof. split; intros []; reflexivity. Qed.

(** ** Text *)

Module TextFacts.
Import Text.

Lemma app_cons c s t : String c s +:+ t = String c (s +:+ t).
Proof. reflexivity. Qed.

Lemma app_nil_l s : EmptyString +:+ s = s.
Proof. reflexivity. Qed.

Lemma app_nil_r s : s +:+ EmptyString = s.
Proof. induction s as [|c s IH]; [reflexivity|]. by rewrite app_cons, IH. Qed.

Lemma app_assoc s t u : (s +:+ t) +:+ u = s +:+ (t +:+ u).
Proof. induction s as [|c s IH]; [reflexivity|]. by rewrite !app_cons, IH. Qed.

Lemma length_app s t : String.length (s +:+ t) = String.length s + String.length t.
Proof. induction s as [|c s IH]; [reflexivity|]. rewrite app_cons. simpl. by rewrite IH. Qed.

Lemma app_neq_self s t : t <> EmptyString -> s +:+ t <> s.
Proof.
  intros Ht Heq. apply (f_equal String.length) in Heq.
  rewrite length_app in Heq. destruct t; [done|]. simpl in Heq. lia.
Qed.

Lemma segments_not_nil s : segments s <> [].
Proof.
  induction s as [|c s IH]; simpl; [done|].
  destruct (is_LF c); [done|].
  destruct (is_CR c).
  - destruct s as [|c' s']; [done|]. by destruct (is_LF c').
  - by destruct (segments s).
Qed.

Lemma drop_last_empty_cons l ls :
  ls <> [] -> drop_last_empty (l :: ls) = l :: drop_last_empty ls.
Proof. by destruct ls. Qed.

(** A line followed by LF is read as that line, then the rest. *)
Lemma segments_line s rest :
  one_line s = true ->
  segments (s +:+ String LF rest) = s :: segments rest.
Proof.
  induction s as [|c s IH]; intros Hs.
  - reflexivity.
  - simpl in Hs. apply andb_true_iff in Hs as [Hc Hs].
    apply andb_true_iff in Hc as [Hlf Hcr].
    apply negb_true_iff in Hlf, Hcr.
    rewrite app_cons. simpl. rewrite Hlf, Hcr. by rewrite (IH Hs).
Qed.

Lemma readline_line s rest :
  one_line s = true ->
  readline (s +:+ String LF rest) = s :: readline rest.
Proof.
  intros Hs. unfold readline. rewrite (segments_line _ _ Hs).
  apply drop_last_empty_cons, segments_not_nil.
Qed.

Lemma readline_empty : readline EmptyString = [].
Proof. reflexivity. Qed.

End TextFacts.

(** ** The filesystem calls *)

Lemma injected_true_faults fl : injected fl = true -> fl <> [].
Proof. by destruct fl. Qed.

Lemma sys_writeFile_run path contents doAppend w :
  sys_writeFile path contents doAppend w =
    let log := calls w ++ [WriteFile path doAppend] in
    if injected (faults w) then (Err EIO, World (files w) (tail (faults w)) log)
    else
      let old := if doAppend then default EmptyString (files w !! path)
                 else EmptyString in
      (Ok tt, World (<[path := old +:+ contents]> (files w)) (tail (faults w)) log).
Proof. unfold sys_writeFile, syscall_step. by destruct (injected (faults w)). Qed.

Lemma sys_stat_run path w :
  sys_stat path w =
    let log := calls w ++ [Stat path] in
    if injected (faults w) then (Err EIO, World (files w) (tail (faults w)) log)
    else
      (match files w !! path with
       | Some content => Ok (String.length content)
       | None => Err ENOENT
       end, World (files w) (tail (faults w)) log).
Proof.
  unfold sys_stat, syscall_step.
  destruct (injected (faults w)); [done|]. by destruct (files w !! path).
Qed.

Lemma sys_read_run path w :
  sys_read path w =
    let log := calls w ++ [ReadStream path] in
    if injected (faults w) then (Err EIO, World (files w) (tail (faults w)) log)
    else
      (match files w !! path with
       | Some content => Ok content
       | None => Err ENOENT
       end, World (files w) (tail (faults w)) log).
Proof.
  unfold sys_read, syscall_step.
  destruct (injected (faults w)); [done|]. by destruct (files w !! path).
Qed.

Lemma sys_unlink_run path w :
  sys_unlink path w =
    let log := calls w ++ [Unlink path] in
    if injected (faults w) then (Err EIO, World (files w) (tail (faults w)) log)
    else
      match files w !! path with
      | Some _ => (Ok tt, World (delete path (files w)) (tail (faults w)) log)
      | None => (Err ENOENT, World (files w) (tail (faults w)) log)
      end.
Proof.
  unfold sys_unlink, syscall_step.
  destruct (injected (faults w)); [done|]. by destruct (files w !! path).
Qed.

Lemma sys_rename_run oldName newName w :
  sys_rename oldName newName w =
    let log := calls w ++ [Rename oldName newName] in
    if injected (faults w) then (Err EIO, World (files w) (tail (faults w)) log)
    else
      match files w !! oldName with
      | Some content =>
          (Ok tt, World (<[newName := content]> (delete oldName (files w)))
                    (tail (faults w)) log)
      | None => (Err ENOENT, World (files w) (tail (faults w)) log)
      end.
Proof.
  unfold sys_rename, syscall_step.
  destruct (injected (faults w)); [done|]. by destruct (files w !! oldName).
Qed.

(** [fileExists] makes one [fs.stat] call and never fails. *)
Lemma fileExists_run fileName w :
  fileExists fileName w =
    (Ok (negb (injected (faults w)) && bool_decide (is_Some (files w !! fileName))),
     World (files w) (tail (faults w)) (calls w ++ [Stat fileName])).
Proof.
  unfold fileExists, catch, bind. rewrite sys_stat_run. simpl.
  destruct (injected (faults w)); [done|].
  by destruct (files w !! fileName).
Qed.

Lemma tmpFileName_neq (name : string) :
  tmpFileName (new_FileDatabase name) <> name.
Proof. simpl. by apply TextFacts.app_neq_self. Qed.

(** ** Scanning *)

Section Scan.

Context {DataType : Type} `{Codec DataType}.

Lemma for_lines_ext {A} (cb1 cb2 : A -> DataType -> M (bool * A)) :
  (forall acc data w, cb1 acc data w = cb2 acc data w) ->
  forall lines acc w, for_lines cb1 lines acc w = for_lines cb2 lines acc w.
Proof.
  intros Hcb. induction lines as [|line rest IH]; intros acc w; [done|].
  simpl. destruct (Text.truthy (Text.trim line)); [|apply IH].
  destruct (JSON_parse line) as [data|]; [|done].
  unfold bind. rewrite Hcb.
  destruct (cb2 acc data w) as [[[[] acc']|e] w']; auto.
Qed.

(** A scan whose callback touches no file and never stops: it folds
    [f] over the records. *)
Lemma for_lines_pure {A} (f : A -> DataType -> A) lines : forall acc w,
  for_lines (fun acc data => ret (true, f acc data)) lines acc w =
    match parse_lines lines with
    | Some R => (Ok (fold_left f R acc), w)
    | None => (Err SyntaxError, w)
    end.
Proof.
  induction lines as [|line rest IH]; intros acc w; [done|].
  simpl. destruct (Text.truthy (Text.trim line)); [|apply IH].
  destruct (JSON_parse line) as [data|]; [|done].
  unfold bind, ret at 1. rewrite IH.
  by destruct (parse_lines rest).
Qed.

Lemma newJson_from (records : list DataType) : forall str,
  fold_left
    (fun str record => (str +:+ JSON_stringify record) +:+ String Text.LF EmptyString)
    records str
  = str +:+ newJson records.
Proof.
  unfold newJson. induction records as [|r rs IH]; intros str; simpl.
  - by rewrite TextFacts.app_nil_r.
  - rewrite IH, (IH (_ +:+ _)). by rewrite !TextFacts.app_assoc.
Qed.

Lemma newJson_cons r (rs : list DataType) :
  newJson (r :: rs) = JSON_stringify r +:+ String Text.LF (newJson rs).
Proof.
  unfold newJson at 1. simpl. rewrite newJson_from.
  by rewrite TextFacts.app_assoc.
Qed.

Lemma newJson_app (rs1 rs2 : list DataType) :
  newJson (rs1 ++ rs2) = newJson rs1 +:+ newJson rs2.
Proof.
  unfold newJson at 1 2. rewrite fold_left_app. by rewrite newJson_from.
Qed.

Lemma newJson_cons_app r (rs : list DataType) :
  newJson (r :: rs) = newJson [r] +:+ newJson rs.
Proof. apply (newJson_app [r] rs). Qed.

Context `{!LawfulCodec DataType}.

(** What [addRecords] writes is read back record by record. *)
Lemma records_of_newJson (R : list DataType) : records_of (newJson R) = Some R.
Proof.
  unfold records_of. induction R as [|r rs IH]; [done|].
  rewrite newJson_cons, TextFacts.readline_line by apply stringify_one_line.
  simpl. rewrite stringify_not_blank, parse_stringify. by rewrite IH.
Qed.

End Scan.

(** ** The replace protocol: filling the temporary file *)

Section Replace.

Context {DataType : Type} `{Codec DataType}.

Lemma addRecord_run (name : string) (record : DataType) w :
  addRecord (new_FileDatabase name) record w =
    sys_writeFile name (newJson [record]) true w.
Proof. reflexivity. Qed.

(** The state after the scan of [lines] by a rewriting callback. Every
    file but the temporary one is as before; on success the temporary
    file has grown by the kept records; a failure is a line that does not
    parse, or an injected one. *)
Lemma for_lines_rewrite (tmp : string) keep touch lines : forall w acc T,
  files w !! tmp = Some T ->
  exists r w',
    for_lines (rewrite_cb (new_FileDatabase tmp) keep touch) lines acc w = (r, w') /\
    (forall p, p <> tmp -> files w' !! p = files w !! p) /\
    (faults w = [] -> faults w' = []) /\
    match r with
    | Ok acc' =>
        exists R, parse_lines lines = Some R /\
          files w' !! tmp = Some (T +:+ newJson (omap keep R)) /\
          acc' = acc || existsb touch R /\
          calls w' = calls w ++ replicate (length (omap keep R)) (WriteFile tmp true)
    | Err e =>
        (e = SyntaxError /\ parse_lines (DataType:=DataType) lines = None) \/
        (e = EIO /\ faults w <> [])
    end.
Proof.
  induction lines as [|line rest IH]; intros w acc T HT.
  { exists (Ok acc), w. repeat split; [done|]. exists []. simpl.
    by rewrite TextFacts.app_nil_r, orb_false_r, app_nil_r. }
  simpl. destruct (Text.truthy (Text.trim line)); [|by apply IH].
  destruct (JSON_parse line) as [data|]; last first.
  { exists (Err SyntaxError), w. repeat split; [done|]. by left. }
  unfold bind at 1, rewrite_cb. destruct (keep data) as [out|] eqn:Hkeep.
  - unfold bind at 1. rewrite addRecord_run, sys_writeFile_run. simpl.
    destruct (injected (faults w)) eqn:Hinj.
    { eexists _, _. split; [reflexivity|]. simpl. repeat split.
      - intros Hfl. by rewrite Hfl in Hinj.
      - right. split; [done|]. by apply injected_true_faults. }
    unfold ret at 1. rewrite HT. simpl.
    set (w1 := World _ _ _).
    destruct (IH w1 (acc || touch data) (T +:+ newJson [out]))
      as (r & w' & Hrun & Hframe & Hfl & Hres).
    { subst w1. simpl. by rewrite lookup_insert_eq. }
    exists r, w'. split; [done|]. split; [|split].
    + intros p Hp. rewrite (Hframe p Hp). subst w1. simpl.
      by rewrite lookup_insert_ne.
    + intros Hnil. apply Hfl. subst w1. simpl. by rewrite Hnil.
    + destruct r as [acc'|e].
      * destruct Hres as (R & HR & Htmp & Hacc & Hcalls).
        exists (data :: R). rewrite HR. split; [done|]. simpl. rewrite Hkeep.
        split; [|split].
        -- rewrite Htmp. f_equal.
           rewrite TextFacts.app_assoc. f_equal. symmetry.
           apply (newJson_cons_app out (omap keep R)).
        -- by rewrite Hacc, orb_assoc.
        -- rewrite Hcalls. subst w1. simpl. by rewrite <- app_assoc.
      * destruct Hres as [[-> HR]|[-> Hne]].
        -- left. by rewrite HR.
        -- right. split; [done|]. intros Hnil. apply Hne. subst w1. simpl.
           by rewrite Hnil.
  - unfold ret at 1.
    destruct (IH w (acc || touch data) T HT)
      as (r & w' & Hrun & Hframe & Hfl & Hres).
    exists r, w'. split; [done|]. split; [done|]. split; [done|].
    destruct r as [acc'|e].
    + destruct Hres as (R & HR & Htmp & Hacc & Hcalls).
      exists (data :: R). rewrite HR. split; [done|]. simpl. rewrite Hkeep.
      split; [done|]. split; [|done]. by rewrite Hacc, orb_assoc.
    + destruct Hres as [[-> HR]|[-> Hne]]; [left|right]; [|done].
      by rewrite HR.
Qed.

End Replace.

Section ReplaceScan.

Context {DataType : Type} `{Codec DataType}.
Variable name : string.

Let this := new_FileDatabase name.
Let tmp := tmpFileName this.

Lemma tail_not_nil (fl : list bool) : tail fl <> [] -> fl <> [].
Proof. by destruct fl. Qed.

(** The scan stage of a replace: [forEachRecord] with a rewriting
    callback, started with the temporary file holding [T]. Either
    [fs.stat] said the backing file is not there and nothing was
    scanned, or every record was scanned, or the scan failed. The
    backing file is never written. *)
Lemma forEachRecord_rewrite keep touch w T :
  files w !! tmp = Some T ->
  exists r w',
    forEachRecord this (rewrite_cb (getTmpWriter this) keep touch) false false w
      = (r, w') /\
    (forall p, p <> tmp -> files w' !! p = files w !! p) /\
    (faults w = [] -> faults w' = []) /\
    match r with
    | Ok isUpdated =>
        (isUpdated = false /\ files w' !! tmp = Some T /\
         calls w' = calls w ++ [Stat name] /\
         (files w !! name = None \/ faults w <> []))
        \/
        (exists S R,
           files w !! name = Some S /\ records_of S = Some R /\
           files w' !! tmp = Some (T +:+ newJson (omap keep R)) /\
           isUpdated = existsb touch R /\
           calls w' = calls w ++ [Stat name; ReadStream name]
                        ++ replicate (length (omap keep R)) (WriteFile tmp true))
    | Err e =>
        (e = EIO /\ faults w <> []) \/
        (e = SyntaxError /\
         exists S, files w !! name = Some S /\
                   records_of (DataType:=DataType) S = None)
    end.
Proof.
  intros HT. unfold forEachRecord, lockAndExecute, bind.
  rewrite fileExists_run. simpl.
  destruct (injected (faults w)) eqn:Hinj; simpl.
  { eexists _, _. split; [reflexivity|]. simpl. repeat split.
    - intros Hnil. by rewrite Hnil in Hinj.
    - left. repeat split; [done|]. right. by apply injected_true_faults. }
  destruct (files w !! name) as [S|] eqn:Hdb; simpl; last first.
  { eexists _, _. split; [reflexivity|]. simpl. repeat split.
    - intros Hnil. by rewrite Hnil.
    - left. repeat split; [done|]. by left. }
  rewrite sys_read_run. simpl.
  destruct (injected (tail (faults w))) eqn:Hinj2.
  { eexists _, _. split; [reflexivity|]. simpl. repeat split.
    - intros Hnil. by rewrite Hnil in Hinj2.
    - left. split; [done|]. apply tail_not_nil. by apply injected_true_faults. }
  rewrite Hdb. set (w2 := World _ _ _).
  destruct (for_lines_rewrite tmp keep touch (Text.readline S) w2 false T HT)
    as (r & w' & Hrun & Hframe & Hfl & Hres).
  exists r, w'. split; [exact Hrun|]. split; [exact Hframe|]. split.
  { intros Hnil. apply Hfl. subst w2. simpl. by rewrite Hnil. }
  destruct r as [isUpdated|e].
  - destruct Hres as (R & HR & Htmp & Hacc & Hcalls).
    right. exists S, R. repeat split; try done.
    rewrite Hcalls. subst w2. simpl. by rewrite <- !app_assoc.
  - destruct Hres as [[-> HR]|[-> Hne]].
    + right. split; [done|]. by exists S.
    + left. split; [done|]. subst w2. simpl in Hne.
      apply tail_not_nil, tail_not_nil, Hne.
Qed.

End ReplaceScan.

(** ** The replace protocol: the swap *)

(** [deleteFile(name).catch(...)]: the call is made, its failure is not
    reported. *)
Lemma deleteFile_swallowed_run (name : string) w :
  exists w',
    catch (deleteFile name) (fun _ => ret tt) w = (Ok tt, w') /\
    faults w' = tail (faults w) /\
    calls w' = calls w ++ [Unlink name] /\
    (forall p, p <> name -> files w' !! p = files w !! p) /\
    (files w' !! name = files w !! name \/ files w' !! name = None) /\
    (faults w = [] -> files w' !! name = None).
Proof.
  unfold catch, deleteFile. rewrite sys_unlink_run. simpl.
  destruct (injected (faults w)) eqn:Hinj.
  { eexists. split; [reflexivity|]. simpl. repeat split; auto.
    intros Hnil. by rewrite Hnil in Hinj. }
  destruct (files w !! name) eqn:Hdb.
  - eexists. split; [reflexivity|]. simpl. repeat split.
    + intros p Hp. by rewrite lookup_delete_ne.
    + right. by rewrite lookup_delete_eq.
    + intros _. by rewrite lookup_delete_eq.
  - eexists. split; [reflexivity|]. simpl. repeat split; auto.
Qed.

(** [renameFile(tmp, name)] when [tmp] exists: it fails only by an
    injected failure, and then changes nothing. *)
Lemma renameFile_run (tmp name C : string) w :
  files w !! tmp = Some C -> tmp <> name ->
  exists r w',
    renameFile tmp name w = (r, w') /\
    faults w' = tail (faults w) /\
    calls w' = calls w ++ [Rename tmp name] /\
    match r with
    | Ok _ =>
        files w' !! name = Some C /\ files w' !! tmp = None /\
        (forall p, p <> name -> p <> tmp -> files w' !! p = files w !! p)
    | Err e => e = EIO /\ faults w <> [] /\ files w' = files w
    end.
Proof.
  intros Htmp Hne. unfold renameFile. rewrite sys_rename_run. simpl.
  destruct (injected (faults w)) eqn:Hinj.
  { eexists _, _. split; [reflexivity|]. simpl. repeat split.
    by apply injected_true_faults. }
  rewrite Htmp. eexists _, _. split; [reflexivity|]. simpl. repeat split.
  - by rewrite lookup_insert_eq.
  - rewrite lookup_insert_ne by done. by rewrite lookup_delete_eq.
  - intros p Hp1 Hp2. rewrite lookup_insert_ne by done.
    by rewrite lookup_delete_ne.
Qed.

Section Callbacks.

Context {DataType : Type} `{Codec DataType}.

Lemma forEachRecord_ext {A} this (cb1 cb2 : A -> DataType -> M (bool * A)) :
  (forall acc data w, cb1 acc data w = cb2 acc data w) ->
  forall init b w, forEachRecord this cb1 init b w = forEachRecord this cb2 init b w.
Proof.
  intros Hcb init b w. unfold forEachRecord, lockAndExecute, bind.
  destruct (fileExists (ndjsonFilename this) w) as [[[]|e] w1]; simpl; try done.
  destruct (sys_read (ndjsonFilename this) w1) as [[content|e] w2]; [|done].
  by apply for_lines_ext.
Qed.

Lemma omap_Some_map {A B} (f : A -> B) (l : list A) :
  omap (fun a => Some (f a)) l = map f l.
Proof. induction l as [|a l IH]; [done|]. simpl. by rewrite <- IH. Qed.

Lemma omap_filter {A} (P : A -> bool) (l : list A) :
  omap (fun a => if P a then None else Some a) l
  = List.filter (fun a => negb (P a)) l.
Proof.
  induction l as [|a l IH]; [done|]. simpl.
  destruct (P a); simpl; by rewrite <- IH.
Qed.

(** The scan of [updateRecords] is a rewriting scan that keeps every
    record, updated, and raises [isUpdated] at every record. *)
Lemma updateRecords_unfold this findCallback (newRecord : DataType) w :
  updateRecords this findCallback newRecord w =
    (let* _ := deleteAllRecords (getTmpWriter this) in
     let* isUpdated :=
       forEachRecord this
         (rewrite_cb (getTmpWriter this)
            (fun record => Some (updated findCallback newRecord record))
            (fun _ => true))
         false false in
     if isUpdated then
       let* _ := catch (deleteFile (ndjsonFilename this)) (fun _ => ret tt) in
       renameFile (tmpFileName this) (ndjsonFilename this)
     else ret tt) w.
Proof.
  unfold updateRecords, lockAndExecute, bind.
  destruct (deleteAllRecords (getTmpWriter this) w) as [[[]|e] w1]; [|done].
  erewrite forEachRecord_ext; [reflexivity|].
  intros acc data w0. unfold rewrite_cb, updated, bind.
  destruct (addRecord _ _ w0) as [[[]|e] w0']; [|done].
  by rewrite orb_true_r.
Qed.

(** The scan of [deleteRecords] keeps the records the callback rejects
    and raises [isUpdated] at the others. *)
Lemma deleteRecords_unfold this (findCallback : DataType -> bool) w :
  deleteRecords this findCallback w =
    (let* _ := deleteAllRecords (getTmpWriter this) in
     let* isUpdated :=
       forEachRecord this
         (rewrite_cb (getTmpWriter this)
            (fun record => if findCallback record then None else Some record)
            findCallback)
         false false in
     if isUpdated then
       let* _ := catch (deleteFile (ndjsonFilename this)) (fun _ => ret tt) in
       catch (renameFile (tmpFileName this) (ndjsonFilename this))
         (fun _ => throw (Thrown "Could not properly delete database entry"))
     else
       catch (deleteFile (tmpFileName this)) (fun _ => ret tt)) w.
Proof.
  unfold deleteRecords, lockAndExecute, bind.
  destruct (deleteAllRecords (getTmpWriter this) w) as [[[]|e] w1]; [|done].
  erewrite forEachRecord_ext; [reflexivity|].
  intros acc data w0. unfold rewrite_cb, bind.
  destruct (findCallback data); simpl.
  - by rewrite orb_true_r.
  - destruct (addRecord _ _ w0) as [[[]|e] w0']; [|done].
    by rewrite orb_false_r.
Qed.

End Callbacks.

(** ** The replace protocol: every run of [updateRecords] and [deleteRecords] *)

Section ReplaceRuns.

Context {DataType : Type} `{Codec DataType}.
Variable name : string.

Let this := new_FileDatabase name.
Let tmp := tmpFileName this.

Lemma tmp_neq_name : tmp <> name.
Proof. apply tmpFileName_neq. Qed.

Lemma name_neq_tmp : name <> tmp.
Proof. intros Heq. by apply tmp_neq_name. Qed.

(** Every run of [updateRecords], under any injected failures.
    A success either swapped nothing (the backing file is as before and
    the temporary file is left, empty) or swapped the rewritten records
    in. A failure leaves the backing file as before, or gone with the
    temporary file holding the rewritten records. *)
Lemma updateRecords_outcome findCallback (newRecord : DataType) w :
  exists r w',
    updateRecords this findCallback newRecord w = (r, w') /\
    (faults w = [] -> faults w' = []) /\
    match r with
    | Ok _ =>
        (files w' !! name = files w !! name /\
         files w' !! tmp = Some EmptyString /\
         (faults w <> [] \/ files w !! name = None \/
          exists S, files w !! name = Some S /\
                    records_of (DataType:=DataType) S = Some []))
        \/
        (exists S R,
           files w !! name = Some S /\ records_of S = Some R /\ R <> [] /\
           files w' !! name = Some (newJson (map (updated findCallback newRecord) R)) /\
           files w' !! tmp = None /\
           calls w' = calls w ++ [WriteFile tmp false; Stat name; ReadStream name]
                        ++ replicate (length R) (WriteFile tmp true)
                        ++ [Unlink name; Rename tmp name])
    | Err e =>
        (faults w <> [] \/
         exists S, files w !! name = Some S /\
                   records_of (DataType:=DataType) S = None) /\
        (files w' !! name = files w !! name \/
         (files w' !! name = None /\
          last (calls w') = Some (Rename tmp name) /\
          exists S R,
            files w !! name = Some S /\ records_of S = Some R /\
            files w' !! tmp = Some (newJson (map (updated findCallback newRecord) R))))
    end.
Proof.
  pose proof tmp_neq_name as Htn. pose proof name_neq_tmp as Hnt.
  rewrite updateRecords_unfold. unfold bind at 1.
  unfold deleteAllRecords, lockAndExecute, writeFile.
  rewrite sys_writeFile_run. simpl.
  destruct (injected (faults w)) eqn:Hinj.
  { eexists _, _. split; [reflexivity|]. simpl. split.
    - intros Hnil. by rewrite Hnil in Hinj.
    - split; [left; by apply injected_true_faults|by left]. }
  set (w1 := World _ _ _).
  assert (files w1 !! tmp = Some EmptyString) as HT.
  { subst w1. simpl. apply lookup_insert_eq. }
  assert (files w1 !! name = files w !! name) as Hname1.
  { subst w1. simpl. by rewrite lookup_insert_ne. }
  assert (faults w1 <> [] -> faults w <> []) as Hfl1.
  { subst w1. simpl. apply tail_not_nil. }
  destruct (forEachRecord_rewrite name
              (fun record => Some (updated findCallback newRecord record))
              (fun _ => true) w1 EmptyString HT)
    as (r & w2 & Hrun & Hframe & Hfl & Hres).
  change (new_FileDatabase name) with this in Hrun.
  unfold bind at 1. rewrite Hrun.
  destruct r as [isUpdated|e]; last first.
  { exists (Err e), w2. split; [done|]. split.
    - intros Hnil. apply Hfl. subst w1. simpl. by rewrite Hnil.
    - split.
      + destruct Hres as [[_ Hne]|[_ (S & HS & HR)]]; [left; auto|].
        right. exists S. by rewrite <- Hname1.
      + left. by rewrite (Hframe name Hnt). }
  destruct Hres as [(-> & Htmp & _ & Hwhy)|(S & R & Hdb & HR & Htmp & -> & Hcalls)].
  { exists (Ok tt), w2. split; [done|]. split.
    - intros Hnil. apply Hfl. subst w1. simpl. by rewrite Hnil.
    - left. split; [by rewrite (Hframe name Hnt)|]. split; [done|].
      destruct Hwhy as [Hnone|Hne]; [right; left; by rewrite <- Hname1|left; auto]. }
  rewrite omap_Some_map in Htmp, Hcalls. rewrite length_map in Hcalls.
  rewrite TextFacts.app_nil_l in Htmp.
  destruct R as [|data R'].
  { exists (Ok tt), w2. split; [done|]. split.
    - intros Hnil. apply Hfl. subst w1. simpl. by rewrite Hnil.
    - left. split; [by rewrite (Hframe name Hnt)|]. split; [done|].
      right; right. exists S. by rewrite <- Hname1. }
  change (existsb (fun _ : DataType => true) (data :: R')) with true.
  cbv iota.
  destruct (deleteFile_swallowed_run name w2)
    as (w3 & Hrun3 & Hfl3 & Hcalls3 & Hframe3 & Hname3 & _).
  change (name +:+ ".tmp.ndjson") with tmp.
  unfold bind at 1. rewrite Hrun3.
  assert (files w3 !! tmp = Some (newJson (map (updated findCallback newRecord) (data :: R'))))
    as Htmp3 by (by rewrite (Hframe3 tmp Htn)).
  destruct (renameFile_run tmp name _ w3 Htmp3 Htn)
    as (r & w4 & Hrun4 & Hfl4 & Hcalls4 & Hres4).
  exists r, w4. split; [done|]. split.
  { intros Hnil. rewrite Hfl4, Hfl3, Hfl; [done|]. subst w1. simpl. by rewrite Hnil. }
  destruct r as [[]|e].
  - destruct Hres4 as (Hname4 & Htmp4 & _).
    right. exists S, (data :: R'). rewrite <- Hname1. repeat split; try done.
    rewrite Hcalls4, Hcalls3, Hcalls. subst w1. simpl.
    by rewrite <- !app_assoc.
  - destruct Hres4 as (-> & Hne4 & Hfiles4). split.
    + left. apply Hfl1. intros Hnil. apply Hne4. rewrite Hfl3, Hfl; done.
    + rewrite Hfiles4. destruct Hname3 as [Hsame|Hgone].
      * left. by rewrite Hsame, (Hframe name Hnt).
      * right. split; [done|]. split; [by rewrite Hcalls4, last_snoc|].
        exists S, (data :: R'). by rewrite <- Hname1.
Qed.

(** Every run of [deleteRecords], under any injected failures. *)
Lemma deleteRecords_outcome (findCallback : DataType -> bool) w :
  exists r w',
    deleteRecords this findCallback w = (r, w') /\
    (faults w = [] -> faults w' = []) /\
    match r with
    | Ok _ =>
        (files w' !! name = files w !! name /\
         (faults w = [] -> files w' !! tmp = None) /\
         (faults w <> [] \/ files w !! name = None \/
          exists S R, files w !! name = Some S /\ records_of S = Some R /\
                      existsb findCallback R = false))
        \/
        (exists S R,
           files w !! name = Some S /\ records_of S = Some R /\
           existsb findCallback R = true /\
           files w' !! name
             = Some (newJson (List.filter (fun r => negb (findCallback r)) R)) /\
           files w' !! tmp = None)
    | Err e =>
        (faults w <> [] \/
         exists S, files w !! name = Some S /\
                   records_of (DataType:=DataType) S = None) /\
        (files w' !! name = files w !! name \/
         (files w' !! name = None /\
          last (calls w') = Some (Rename tmp name) /\
          exists S R,
            files w !! name = Some S /\ records_of S = Some R /\
            files w' !! tmp
              = Some (newJson (List.filter (fun r => negb (findCallback r)) R))))
    end.
Proof.
  pose proof tmp_neq_name as Htn. pose proof name_neq_tmp as Hnt.
  rewrite deleteRecords_unfold. unfold bind at 1.
  unfold deleteAllRecords, lockAndExecute, writeFile.
  rewrite sys_writeFile_run. simpl.
  destruct (injected (faults w)) eqn:Hinj.
  { eexists _, _. split; [reflexivity|]. simpl. split.
    - intros Hnil. by rewrite Hnil in Hinj.
    - split; [left; by apply injected_true_faults|by left]. }
  set (w1 := World _ _ _).
  assert (files w1 !! tmp = Some EmptyString) as HT.
  { subst w1. simpl. apply lookup_insert_eq. }
  assert (files w1 !! name = files w !! name) as Hname1.
  { subst w1. simpl. by rewrite lookup_insert_ne. }
  assert (faults w1 <> [] -> faults w <> []) as Hfl1.
  { subst w1. simpl. apply tail_not_nil. }
  assert (faults w = [] -> faults w1 = []) as Hnil1.
  { intros Hnil. subst w1. simpl. by rewrite Hnil. }
  destruct (forEachRecord_rewrite name
              (fun record => if findCallback record then None else Some record)
              findCallback w1 EmptyString HT)
    as (r & w2 & Hrun & Hframe & Hfl & Hres).
  change (new_FileDatabase name) with this in Hrun.
  unfold bind at 1. rewrite Hrun.
  destruct r as [isUpdated|e]; last first.
  { exists (Err e), w2. split; [done|]. split; [auto|]. split.
    - destruct Hres as [[_ Hne]|[_ (S & HS & HR)]]; [left; auto|].
      right. exists S. by rewrite <- Hname1.
    - left. by rewrite (Hframe name Hnt). }
  change (name +:+ ".tmp.ndjson") with tmp.
  assert (forall (why : Prop), why ->
    exists r w',
      catch (deleteFile tmp) (fun _ => ret tt) w2 = (r, w') /\
      (faults w = [] -> faults w' = []) /\
      match r with
      | Ok _ =>
          files w' !! name = files w !! name /\
          (faults w = [] -> files w' !! tmp = None) /\ why
      | Err _ => False
      end) as Hdiscard.
  { intros why Hwhy.
    destruct (deleteFile_swallowed_run tmp w2)
      as (w3 & Hrun3 & Hfl3 & _ & Hframe3 & _ & Hgone3).
    exists (Ok tt), w3. split; [done|]. split.
    { intros Hnil. rewrite Hfl3, Hfl; auto. }
    split; [by rewrite (Hframe3 name Hnt), (Hframe name Hnt)|]. split; [|done].
    intros Hnil. apply Hgone3. auto. }
  destruct Hres as [(-> & Htmp & _ & Hwhy)|(S & R & Hdb & HR & Htmp & -> & Hcalls)].
  { destruct (Hdiscard (faults w <> [] \/ files w !! name = None \/
                exists S R, files w !! name = Some S /\
                  records_of (DataType:=DataType) S = Some R /\
                  existsb findCallback R = false))
      as (r & w' & Hrun' & Hfl' & Hres').
    { destruct Hwhy as [Hnone|Hne]; [right; left; by rewrite <- Hname1|left; auto]. }
    exists r, w'. split; [done|]. split; [done|].
    destruct r; [by left|done]. }
  rewrite omap_filter in Htmp. rewrite TextFacts.app_nil_l in Htmp.
  destruct (existsb findCallback R) eqn:Hany; last first.
  { destruct (Hdiscard (faults w <> [] \/ files w !! name = None \/
                exists S R, files w !! name = Some S /\
                  records_of (DataType:=DataType) S = Some R /\
                  existsb findCallback R = false))
      as (r & w' & Hrun' & Hfl' & Hres').
    { right; right. exists S, R. by rewrite <- Hname1. }
    exists r, w'. split; [done|]. split; [done|].
    destruct r; [by left|done]. }
  clear Hdiscard.
  destruct (deleteFile_swallowed_run name w2)
    as (w3 & Hrun3 & Hfl3 & Hcalls3 & Hframe3 & Hname3 & _).
  unfold bind at 1. rewrite Hrun3.
  assert (files w3 !! tmp
          = Some (newJson (List.filter (fun r => negb (findCallback r)) R)))
    as Htmp3 by (by rewrite (Hframe3 tmp Htn)).
  destruct (renameFile_run tmp name _ w3 Htmp3 Htn)
    as (r & w4 & Hrun4 & Hfl4 & Hcalls4 & Hres4).
  unfold catch at 1. rewrite Hrun4.
  destruct r as [[]|e].
  - exists (Ok tt), w4. split; [done|]. split.
    { intros Hnil. rewrite Hfl4, Hfl3, Hfl; auto. }
    destruct Hres4 as (Hname4 & Htmp4 & _).
    right. exists S, R. by rewrite <- Hname1.
  - eexists _, w4. split; [reflexivity|]. split.
    { intros Hnil. rewrite Hfl4, Hfl3, Hfl; auto. }
    destruct Hres4 as (-> & Hne4 & Hfiles4). split.
    + left. apply Hfl1. intros Hnil. apply Hne4. rewrite Hfl3, Hfl; done.
    + rewrite Hfiles4. destruct Hname3 as [Hsame|Hgone].
      * left. by rewrite Hsame, (Hframe name Hnt).
      * right. split; [done|]. split; [by rewrite Hcalls4, last_snoc|].
        exists S, R. by rewrite <- Hname1.
Qed.

End ReplaceRuns.

(** ** Reading *)

Section Reading.

Context {DataType : Type} `{Codec DataType}.

(** When [fs.stat] fails, for whatever reason, [forEachRecord] returns
    at once: the callback is never called and the one filesystem call
    made is that [fs.stat]. *)
Lemma forEachRecord_not_found {A} this
    (callback : A -> DataType -> M (bool * A)) init b w :
  injected (faults w) = true \/ files w !! ndjsonFilename this = None ->
  forEachRecord this callback init b w =
    (Ok init, World (files w) (tail (faults w))
                (calls w ++ [Stat (ndjsonFilename this)])).
Proof.
  intros Hwhy. unfold forEachRecord, lockAndExecute, bind.
  rewrite fileExists_run.
  destruct Hwhy as [->| ->]; [done|]. by rewrite andb_false_r.
Qed.

Lemma fold_left_snoc (R : list DataType) : forall acc,
  fold_left (fun records data => records ++ [data]) R acc = acc ++ R.
Proof.
  induction R as [|r R IH]; intros acc; simpl; [by rewrite app_nil_r|].
  by rewrite IH, <- app_assoc.
Qed.

(** [getAllRecords] when no failure is injected: the records of the
    backing file, none if it is absent. *)
Lemma getAllRecords_no_faults this b w :
  faults w = [] ->
  getAllRecords this b w =
    match files w !! ndjsonFilename this with
    | None =>
        (Ok [], World (files w) [] (calls w ++ [Stat (ndjsonFilename this)]))
    | Some content =>
        (match records_of content with
         | Some R => Ok R
         | None => Err SyntaxError
         end,
         World (files w) []
           (calls w ++ [Stat (ndjsonFilename this);
                        ReadStream (ndjsonFilename this)]))
    end.
Proof.
  intros Hnil. destruct (files w !! ndjsonFilename this) as [S|] eqn:Hdb.
  - unfold getAllRecords, forEachRecord, lockAndExecute, bind.
    rewrite fileExists_run, Hnil, Hdb. simpl.
    rewrite sys_read_run. simpl. rewrite Hdb.
    rewrite (for_lines_pure (fun records data => records ++ [data])).
    unfold records_of. destruct (parse_lines (Text.readline S)) as [R|].
    + rewrite fold_left_snoc. simpl. by rewrite <- app_assoc.
    + by rewrite <- app_assoc.
  - unfold getAllRecords. rewrite forEachRecord_not_found by auto.
    by rewrite Hnil.
Qed.

Lemma getAllRecords_result this b w :
  faults w = [] ->
  fst (getAllRecords this b w) =
    match files w !! ndjsonFilename this with
    | None => Ok []
    | Some content =>
        match records_of content with
        | Some R => Ok R
        | None => Err SyntaxError
        end
    end.
Proof.
  intros Hnil. rewrite getAllRecords_no_faults by done.
  by destruct (files w !! ndjsonFilename this).
Qed.

End Reading.

(** * The claims *)

Section ReadClaims.

Context {DataType : Type} `{Codec DataType}.

(** C8. When the backing file does not exist, every read operation that
    goes through the scan ([getAllRecords], [findRecord], [findRecords],
    [getNumRecords], [forEachRecord]) succeeds and behaves as on an empty
    store: empty sequence, absent record, count zero, the callback never
    called. [getDatabaseSize] fails with an error. This holds whatever
    failures are injected. *)
Theorem missing_file_reads_empty {A} (name : string) (w : world) (b : bool)
    (findCallback : DataType -> bool)
    (callback : A -> DataType -> M (bool * A)) (init : A) :
  files w !! name = None ->
  let this := new_FileDatabase name in
  fst (getAllRecords (DataType:=DataType) this b w) = Ok [] /\
  fst (findRecord this findCallback b w) = Ok None /\
  fst (findRecords this findCallback b w) = Ok [] /\
  fst (getNumRecords (DataType:=DataType) this b w) = Ok 0 /\
  forEachRecord this callback init b w
    = (Ok init, World (files w) (tail (faults w)) (calls w ++ [Stat name])) /\
  exists e, fst (getDatabaseSize this w) = Err e.
Proof.
  intros Hdb this.
  assert (injected (faults w) = true \/ files w !! ndjsonFilename this = None)
    as Hwhy by (by right).
  repeat split.
  - unfold getAllRecords. by rewrite forEachRecord_not_found.
  - unfold findRecord. by rewrite forEachRecord_not_found.
  - unfold findRecords. by rewrite forEachRecord_not_found.
  - unfold getNumRecords, getAllRecords, bind.
    by rewrite forEachRecord_not_found.
  - by rewrite forEachRecord_not_found.
  - unfold getDatabaseSize. rewrite sys_stat_run. simpl.
    destruct (injected (faults w)); [by exists EIO|].
    rewrite Hdb. by exists ENOENT.
Qed.

(** C10. Any failure of the [fs.stat] call on the backing file, also on
    a file that exists, makes [fileExists] report [false]; every read
    that goes through the scan then answers as on an empty store and
    reports no error. *)
Theorem stat_failure_reads_empty {A} (name content : string) (w : world)
    (b : bool) (findCallback : DataType -> bool)
    (callback : A -> DataType -> M (bool * A)) (init : A) :
  files w !! name = Some content ->
  injected (faults w) = true ->
  let this := new_FileDatabase name in
  fst (fileExists name w) = Ok false /\
  fst (getAllRecords (DataType:=DataType) this b w) = Ok [] /\
  fst (findRecord this findCallback b w) = Ok None /\
  fst (findRecords this findCallback b w) = Ok [] /\
  fst (getNumRecords (DataType:=DataType) this b w) = Ok 0 /\
  fst (forEachRecord this callback init b w) = Ok init.
Proof.
  intros _ Hinj this.
  assert (injected (faults w) = true \/ files w !! ndjsonFilename this = None)
    as Hwhy by (by left).
  repeat split.
  - rewrite fileExists_run. by rewrite Hinj.
  - unfold getAllRecords. by rewrite forEachRecord_not_found.
  - unfold findRecord. by rewrite forEachRecord_not_found.
  - unfold findRecords. by rewrite forEachRecord_not_found.
  - unfold getNumRecords, getAllRecords, bind.
    by rewrite forEachRecord_not_found.
  - by rewrite forEachRecord_not_found.
Qed.

Context `{!LawfulCodec DataType}.

(** C7. For every sequence of records [R], [addRecords R] on a store
    whose backing file is absent or empty, followed by [getAllRecords],
    returns exactly [R], in the same order. *)
Theorem addRecords_getAllRecords_roundtrip (name : string)
    (fs : gmap string string) (log : list syscall) (R : list DataType) :
  fs !! name = None \/ fs !! name = Some EmptyString ->
  let this := new_FileDatabase name in
  fst ((let* _ := addRecords this R in getAllRecords this true) (World fs [] log))
    = Ok R.
Proof.
  intros Hempty this. unfold bind, addRecords, lockAndExecute, writeFile.
  rewrite sys_writeFile_run. simpl.
  rewrite getAllRecords_result by done. simpl.
  rewrite lookup_insert_eq.
  assert (default EmptyString (fs !! name) = EmptyString) as ->.
  { by destruct Hempty as [-> | ->]. }
  rewrite TextFacts.app_nil_l. by rewrite records_of_newJson.
Qed.

End ReadClaims.

Lemma missing_file_reads_empty_witness :
  files (World ∅ [false; true] []) !! "db" = None /\
  fst (getAllRecords (DataType:=literal) db true (World ∅ [false; true] [])) = Ok [] /\
  exists e, fst (getDatabaseSize db (World ∅ [false; true] [])) = Err e.
Proof.
  split; [reflexivity|].
  pose proof (missing_file_reads_empty (DataType:=literal) "db"
                (World ∅ [false; true] []) true (fun _ => true)
                (fun (n : nat) _ => ret (true, S n)) 0 eq_refl) as Hall.
  simpl in Hall. split; [apply Hall|]. apply Hall.
Defined.

Lemma stat_failure_reads_empty_witness :
  let w := World {[ "db" := "true" +:+ nl ]} [true] [] in
  files w !! "db" = Some ("true" +:+ nl) /\
  injected (faults w) = true /\
  fst (fileExists "db" w) = Ok false /\
  fst (getAllRecords (DataType:=literal) db true w) = Ok [] /\
  fst (getNumRecords (DataType:=literal) db true w) = Ok 0.
Proof.
  intros w. split; [reflexivity|]. split; [reflexivity|].
  pose proof (stat_failure_reads_empty (DataType:=literal) "db" ("true" +:+ nl)
                w true (fun _ => true)
                (fun (n : nat) _ => ret (true, S n)) 0 eq_refl eq_refl) as Hall.
  simpl in Hall. split; [apply Hall|]. split; apply Hall.
Defined.

Lemma addRecords_getAllRecords_roundtrip_witness :
  ((∅ : gmap string string) !! "db" = None \/
   (∅ : gmap string string) !! "db" = Some EmptyString) /\
  fst ((let* _ := addRecords db [JTrue; JNull; JFalse] in
        getAllRecords db true) (World ∅ [] []))
    = Ok [JTrue; JNull; JFalse].
Proof.
  split; [left; reflexivity|].
  apply (addRecords_getAllRecords_roundtrip (DataType:=literal) "db" ∅ []
           [JTrue; JNull; JFalse]).
  left. reflexivity.
Defined.

Section WriteClaims.

Context {DataType : Type} `{Codec DataType} `{!LawfulCodec DataType}.

Lemma filter_none_rejected (P : DataType -> bool) (R : list DataType) :
  existsb P R = false -> List.filter (fun r => negb (P r)) R = R.
Proof.
  induction R as [|r R IH]; [done|]. simpl.
  destruct (P r); [done|]. simpl. intros HR. by rewrite IH.
Qed.

(** The records stored after a successful [updateRecords], with no
    injected failure. *)
Lemma updateRecords_stored (name : string) (fs : gmap string string)
    (log : list syscall) (R : list DataType)
    (findCallback : DataType -> bool) (newRecord : DataType) :
  let this := new_FileDatabase name in
  fst (getAllRecords this true (World fs [] log)) = Ok R ->
  exists w',
    updateRecords this findCallback newRecord (World fs [] log) = (Ok tt, w') /\
    fst (getAllRecords this true w')
      = Ok (map (updated findCallback newRecord) R).
Proof.
  intros this Hpre. rewrite getAllRecords_result in Hpre by done.
  simpl in Hpre.
  destruct (updateRecords_outcome name findCallback newRecord (World fs [] log))
    as (r & w' & Hrun & Hfl & Hres).
  specialize (Hfl eq_refl). simpl in Hres.
  destruct r as [[]|e].
  - exists w'. split; [done|]. rewrite getAllRecords_result by done. simpl.
    destruct Hres as [(Hname & _ & Hwhy)|(S & R0 & Hdb & HR & _ & Hname & _)].
    + rewrite Hname.
      destruct Hwhy as [Hne|[Hnone|(S & Hdb & HR)]]; [done| |].
      * rewrite Hnone in Hpre |- *. by simplify_eq.
      * rewrite Hdb in Hpre |- *. rewrite HR in Hpre |- *. by simplify_eq.
    + rewrite Hdb, HR in Hpre. simplify_eq.
      by rewrite Hname, records_of_newJson.
  - destruct Hres as [[Hne|(S & Hdb & HR)] _]; [done|].
    by rewrite Hdb, HR in Hpre.
Qed.

(** C2. For every pre-call record sequence [R], predicate and
    replacement record, [updateRecords] completes, and afterwards the
    stored sequence has the length of [R] and holds at every position
    the replacement where the predicate held of the record of [R] there,
    and that record otherwise. *)
Theorem updateRecords_replaces_matching (name : string)
    (fs : gmap string string) (log : list syscall) (R : list DataType)
    (findCallback : DataType -> bool) (newRecord : DataType) :
  let this := new_FileDatabase name in
  fst (getAllRecords this true (World fs [] log)) = Ok R ->
  exists w' R',
    updateRecords this findCallback newRecord (World fs [] log) = (Ok tt, w') /\
    fst (getAllRecords this true w') = Ok R' /\
    length R' = length R /\
    forall (i : nat) (r : DataType),
      R !! i = Some r ->
      R' !! i = Some (if findCallback r then newRecord else r).
Proof.
  intros this Hpre.
  destruct (updateRecords_stored name fs log R findCallback newRecord Hpre)
    as (w' & Hrun & Hpost).
  exists w', (map (updated findCallback newRecord) R).
  split; [done|]. split; [done|]. split; [apply length_map|].
  intros i r Hi. change (map ?f ?l) with (f <$> l).
  by rewrite list_lookup_fmap, Hi.
Qed.

(** C3. For every pre-call record sequence [R] and predicate,
    [deleteRecords] completes, and afterwards the stored sequence is [R]
    without the records satisfying the predicate, the others in their
    order; if no record of [R] satisfies it, the backing file is the one
    of before the call, byte for byte. *)
Theorem deleteRecords_removes_matching (name : string)
    (fs : gmap string string) (log : list syscall) (R : list DataType)
    (findCallback : DataType -> bool) :
  let this := new_FileDatabase name in
  fst (getAllRecords this true (World fs [] log)) = Ok R ->
  exists w',
    deleteRecords this findCallback (World fs [] log) = (Ok tt, w') /\
    fst (getAllRecords this true w')
      = Ok (List.filter (fun r => negb (findCallback r)) R) /\
    (existsb findCallback R = false -> files w' !! name = fs !! name).
Proof.
  intros this Hpre. rewrite getAllRecords_result in Hpre by done.
  simpl in Hpre.
  destruct (deleteRecords_outcome name findCallback (World fs [] log))
    as (r & w' & Hrun & Hfl & Hres).
  specialize (Hfl eq_refl). simpl in Hres.
  destruct r as [[]|e].
  - exists w'. split; [done|]. rewrite getAllRecords_result by done. simpl.
    destruct Hres as [(Hname & _ & Hwhy)|(S & R0 & Hdb & HR & Hany & Hname & _)].
    + split; [|done]. rewrite Hname.
      destruct Hwhy as [Hne|[Hnone|(S & R0 & Hdb & HR & Hany)]]; [done| |].
      * rewrite Hnone in Hpre |- *. by simplify_eq.
      * rewrite Hdb in Hpre |- *. rewrite HR in Hpre |- *. simplify_eq.
        by rewrite filter_none_rejected.
    + rewrite Hdb, HR in Hpre. simplify_eq. split.
      * by rewrite Hname, records_of_newJson.
      * intros Hnone. by rewrite Hnone in Hany.
  - destruct Hres as [[Hne|(S & Hdb & HR)] _]; [done|].
    by rewrite Hdb, HR in Hpre.
Qed.

(** C9. [updateRecords] on a store whose backing file is absent or
    holds no record leaves an empty temporary file at the backing path
    followed by [.tmp.ndjson]: the branch that swaps nothing has created
    or truncated it and does not remove it. The backing file is as
    before. *)
Theorem updateRecords_leaves_tmp_file (name : string)
    (fs : gmap string string) (log : list syscall)
    (findCallback : DataType -> bool) (newRecord : DataType) :
  let this := new_FileDatabase name in
  fst (getAllRecords (DataType:=DataType) this true (World fs [] log)) = Ok [] ->
  exists w',
    updateRecords this findCallback newRecord (World fs [] log) = (Ok tt, w') /\
    files w' !! (name +:+ ".tmp.ndjson") = Some EmptyString /\
    files w' !! name = fs !! name.
Proof.
  intros this Hpre. rewrite getAllRecords_result in Hpre by done.
  simpl in Hpre.
  destruct (updateRecords_outcome name findCallback newRecord (World fs [] log))
    as (r & w' & Hrun & Hfl & Hres).
  simpl in Hres. destruct r as [[]|e].
  - exists w'. split; [done|].
    destruct Hres as [(Hname & Htmp & _)|(S & R0 & Hdb & HR & Hne & _)]; [done|].
    rewrite Hdb, HR in Hpre. by simplify_eq.
  - destruct Hres as [[Hne|(S & Hdb & HR)] _]; [done|].
    by rewrite Hdb, HR in Hpre.
Qed.

End WriteClaims.

Lemma updateRecords_replaces_matching_witness :
  let w := World {[ "db" := "true" +:+ nl +:+ "false" +:+ nl ]} [] [] in
  fst (getAllRecords db true w) = Ok [JTrue; JFalse] /\
  exists w' R',
    updateRecords db is_JTrue JNull w = (Ok tt, w') /\
    fst (getAllRecords db true w') = Ok R' /\
    length R' = 2 /\
    forall (i : nat) (r : literal),
      [JTrue; JFalse] !! i = Some r ->
      R' !! i = Some (if is_JTrue r then JNull else r).
Proof.
  intros w. split; [reflexivity|].
  apply (updateRecords_replaces_matching (DataType:=literal) "db"
           {[ "db" := "true" +:+ nl +:+ "false" +:+ nl ]} []
           [JTrue; JFalse] is_JTrue JNull).
  reflexivity.
Defined.

Lemma deleteRecords_removes_matching_witness :
  let w := World {[ "db" := "true" +:+ nl +:+ "false" +:+ nl ]} [] [] in
  fst (getAllRecords db true w) = Ok [JTrue; JFalse] /\
  exists w',
    deleteRecords db is_JTrue w = (Ok tt, w') /\
    fst (getAllRecords db true w')
      = Ok (List.filter (fun r => negb (is_JTrue r)) [JTrue; JFalse]) /\
    (existsb is_JTrue [JTrue; JFalse] = false ->
     files w' !! "db" = files w !! "db").
Proof.
  intros w. split; [reflexivity|].
  apply (deleteRecords_removes_matching (DataType:=literal) "db"
           {[ "db" := "true" +:+ nl +:+ "false" +:+ nl ]} []
           [JTrue; JFalse] is_JTrue).
  reflexivity.
Defined.

Lemma updateRecords_leaves_tmp_file_witness :
  let w := World {[ "db" := nl +:+ nl ]} [] [] in
  fst (getAllRecords (DataType:=literal) db true w) = Ok [] /\
  exists w',
    updateRecords db is_JTrue JNull w = (Ok tt, w') /\
    files w' !! "db.tmp.ndjson" = Some EmptyString /\
    files w' !! "db" = files w !! "db".
Proof.
  intros w. split; [reflexivity|].
  apply (updateRecords_leaves_tmp_file (DataType:=literal) "db"
           {[ "db" := nl +:+ nl ]} [] is_JTrue JNull).
  reflexivity.
Defined.

(** [updateRecords] swaps whenever the backing file holds a record,
    whatever the predicate answers: its callback raises [isUpdated] at
    every record. *)
Lemma updateRecords_swaps_when_not_empty {DataType : Type} `{Codec DataType}
    (name S : string) (fs : gmap string string) (log : list syscall)
    (R : list DataType) (findCallback : DataType -> bool) (newRecord : DataType) :
  fs !! name = Some S -> records_of S = Some R -> R <> [] ->
  let this := new_FileDatabase name in
  exists w',
    updateRecords this findCallback newRecord (World fs [] log) = (Ok tt, w') /\
    files w' !! name = Some (newJson (map (updated findCallback newRecord) R)) /\
    calls w' = log ++ [WriteFile (tmpFileName this) false; Stat name; ReadStream name]
                 ++ replicate (length R) (WriteFile (tmpFileName this) true)
                 ++ [Unlink name; Rename (tmpFileName this) name].
Proof.
  intros Hdb HR Hne this.
  destruct (updateRecords_outcome name findCallback newRecord (World fs [] log))
    as (r & w' & Hrun & _ & Hres).
  simpl in Hres. destruct r as [[]|e].
  - exists w'. split; [done|].
    destruct Hres as [(_ & _ & Hwhy)|(S0 & R0 & Hdb0 & HR0 & _ & Hname & _ & Hcalls)].
    + destruct Hwhy as [?|[Hnone|(S0 & Hdb0 & HR0)]].
      * done.
      * by rewrite Hdb in Hnone.
      * rewrite Hdb in Hdb0. by simplify_eq.
    + rewrite Hdb in Hdb0. by simplify_eq.
  - destruct Hres as [[?|(S0 & Hdb0 & HR0)] _]; [done|].
    rewrite Hdb in Hdb0. by simplify_eq.
Qed.

(** C4 (what the code does). The backing file holds two records and a
    blank line, and the predicate holds of no record. [updateRecords]
    still unlinks the backing file and renames the temporary file over
    it: the file is replaced, its bytes change (the blank line is gone, a
    final line ending is added), and no temporary file is left. *)
Theorem updateRecords_swaps_without_a_match :
  let before := "true" +:+ nl +:+ nl +:+ "false" in
  let w := World {[ "db" := before ]} [] [] in
  let run := updateRecords db (fun _ : literal => false) JNull w in
  fst run = Ok tt /\
  calls (snd run)
    = [WriteFile "db.tmp.ndjson" false; Stat "db"; ReadStream "db";
       WriteFile "db.tmp.ndjson" true; WriteFile "db.tmp.ndjson" true;
       Unlink "db"; Rename "db.tmp.ndjson" "db"] /\
  files (snd run) !! "db" = Some ("true" +:+ nl +:+ "false" +:+ nl) /\
  files (snd run) !! "db" <> Some before /\
  files (snd run) !! "db.tmp.ndjson" = None.
Proof. vm_compute. repeat split. discriminate. Qed.

Section CrashClaim.

Context {DataType : Type} `{Codec DataType}.

Lemma replace_left_one_file_left (name S : string)
    (post : list DataType -> list DataType) (run : result unit * world) :
  replace_left name S post run -> one_file_left name run.
Proof.
  unfold replace_left, one_file_left. destruct (fst run).
  - intros [Hname|(R & _ & Hname)]; left; rewrite Hname; eauto.
  - intros [Hname|(_ & _ & R & _ & Htmp)]; [left; rewrite Hname|right; rewrite Htmp];
      eauto.
Qed.

Lemma updateRecords_replace_left (name S : string)
    (fs : gmap string string) (fl : list bool) (log : list syscall)
    (findCallback : DataType -> bool) (newRecord : DataType) :
  fs !! name = Some S ->
  replace_left name S (map (updated findCallback newRecord))
    (updateRecords (new_FileDatabase name) findCallback newRecord (World fs fl log)).
Proof.
  intros Hdb.
  destruct (updateRecords_outcome name findCallback newRecord (World fs fl log))
    as (r & w' & Hrun & _ & Hres).
  unfold replace_left. rewrite Hrun. simpl in Hres |- *.
  destruct r as [[]|e].
  - destruct Hres as [(Hname & _)|(S0 & R & Hdb0 & HR & _ & Hname & _)].
    + left. by rewrite Hname.
    + rewrite Hdb in Hdb0. simplify_eq. right. by exists R.
  - destruct Hres as [_ [Hname|(Hname & Hlast & S0 & R & Hdb0 & HR & Htmp)]].
    + left. by rewrite Hname.
    + rewrite Hdb in Hdb0. simplify_eq. right. split; [done|]. split; [done|].
      by exists R.
Qed.

Lemma deleteRecords_replace_left (name S : string)
    (fs : gmap string string) (fl : list bool) (log : list syscall)
    (findCallback : DataType -> bool) :
  fs !! name = Some S ->
  replace_left name S (List.filter (fun r => negb (findCallback r)))
    (deleteRecords (new_FileDatabase name) findCallback (World fs fl log)).
Proof.
  intros Hdb.
  destruct (deleteRecords_outcome name findCallback (World fs fl log))
    as (r & w' & Hrun & _ & Hres).
  unfold replace_left. rewrite Hrun. simpl in Hres |- *.
  destruct r as [[]|e].
  - destruct Hres as [(Hname & _)|(S0 & R & Hdb0 & HR & _ & Hname & _)].
    + left. by rewrite Hname.
    + rewrite Hdb in Hdb0. simplify_eq. right. by exists R.
  - destruct Hres as [_ [Hname|(Hname & Hlast & S0 & R & Hdb0 & HR & Htmp)]].
    + left. by rewrite Hname.
    + rewrite Hdb in Hdb0. simplify_eq. right. split; [done|]. split; [done|].
      by exists R.
Qed.

(** C1 (amended). For [updateRecords] and [deleteRecords] on a store
    whose backing file holds [S], under any injected failures: when the
    call succeeds the backing file is [S] (nothing was swapped) or the
    intended post-call state; when it fails the backing file is still
    [S], or, the call that failed being the rename after the unlink, it
    is absent and the temporary file holds the whole intended post-call
    state. The backing file and the temporary file are never both
    absent. *)
Theorem replace_protocol_failure_states (name S : string)
    (fs : gmap string string) (fl : list bool) (log : list syscall)
    (findCallback : DataType -> bool) (newRecord : DataType) :
  fs !! name = Some S ->
  let this := new_FileDatabase name in
  let update := updateRecords this findCallback newRecord (World fs fl log) in
  let delete := deleteRecords this findCallback (World fs fl log) in
  replace_left name S (map (updated findCallback newRecord)) update /\
  one_file_left name update /\
  replace_left name S (List.filter (fun r => negb (findCallback r))) delete /\
  one_file_left name delete.
Proof.
  intros Hdb this update delete.
  pose proof (updateRecords_replace_left name S fs fl log findCallback newRecord Hdb)
    as Hupdate.
  pose proof (deleteRecords_replace_left name S fs fl log findCallback Hdb)
    as Hdelete.
  split; [exact Hupdate|]. split; [by eapply replace_left_one_file_left|].
  split; [exact Hdelete|]. by eapply replace_left_one_file_left.
Qed.

End CrashClaim.

(** C1 (as stated, refuted). The backing file holds [true] and [false],
    [deleteRecords] is to delete [true], and the sixth filesystem call,
    the rename, is made to fail: a failure between the filling of the
    temporary file and the completion of the rename. The unlink has
    already removed the backing file, so it does not equal its pre-call
    state; the records are in the temporary file only. *)
Lemma rename_failure_loses_backing_file :
  let before := "true" +:+ nl +:+ "false" +:+ nl in
  let w := World {[ "db" := before ]} [false; false; false; false; false; true] [] in
  let run := deleteRecords db is_JTrue w in
  calls (snd run)
    = [WriteFile "db.tmp.ndjson" false; Stat "db"; ReadStream "db";
       WriteFile "db.tmp.ndjson" true; Unlink "db"; Rename "db.tmp.ndjson" "db"] /\
  fst run = Err (Thrown "Could not properly delete database entry") /\
  files (snd run) !! "db" <> Some before /\
  files (snd run) !! "db" = None /\
  files (snd run) !! "db.tmp.ndjson" = Some ("false" +:+ nl).
Proof. vm_compute. repeat split. discriminate. Qed.

Lemma replace_protocol_failure_states_witness :
  let before := "true" +:+ nl +:+ "false" +:+ nl in
  let fs : gmap string string := {[ "db" := before ]} in
  let fl := [false; false; false; false; false; true] in
  let update := updateRecords db is_JTrue JNull (World fs fl []) in
  let delete := deleteRecords db is_JTrue (World fs fl []) in
  fs !! "db" = Some before /\
  replace_left "db" before (map (updated is_JTrue JNull)) update /\
  one_file_left "db" update /\
  replace_left "db" before (List.filter (fun r => negb (is_JTrue r))) delete /\
  one_file_left "db" delete.
Proof.
  intros before fs fl update delete. split; [reflexivity|].
  apply (replace_protocol_failure_states (DataType:=literal) "db" before fs fl []
           is_JTrue JNull).
  reflexivity.
Defined.

(** ** The serializer *)

Module SerializerFacts.
Import Serializer.

(** The chain never rejects. *)
Lemma lock_state_not_rejected g l e : lock_state g l <> Rejected e.
Proof.
  destruct l as [|i]; simpl; [done|]. by destruct (promise_of g i).
Qed.

(** A settled call stays as it is. *)
Lemma step_keeps_done g ev g' i o :
  step g ev = Some g' ->
  phases g !! i = Some (Done o) -> phases g' !! i = Some (Done o).
Proof.
  intros Hstep Hi. destruct ev as [[]|j|j o']; simpl in Hstep.
  - simplify_eq. simpl. by apply lookup_app_l_Some.
  - simplify_eq. simpl. by apply lookup_app_l_Some.
  - destruct (phases g !! j) as [[l| |]|] eqn:Hj; try done.
    assert (i <> j) as Hij by (intros ->; congruence).
    destruct (lock_state g l); simplify_eq; simpl;
      by rewrite list_lookup_insert_ne.
  - destruct (phases g !! j) as [[| |]|] eqn:Hj; try done.
    assert (i <> j) as Hij by (intros ->; congruence).
    simplify_eq. simpl. by rewrite list_lookup_insert_ne.
Qed.

Lemma run_keeps_done evs : forall g g' i o,
  run g evs = Some g' ->
  phases g !! i = Some (Done o) -> phases g' !! i = Some (Done o).
Proof.
  induction evs as [|ev rest IH]; intros g g' i o Hrun Hi; simpl in Hrun.
  - by simplify_eq.
  - destruct (step g ev) as [g1|] eqn:Hstep; [|done].
    eapply IH; [done|]. by eapply step_keeps_done.
Qed.

(** C5 (what the code does). Two calls with [waitForUnlock = true] are
    made back to back. Both read the same [lockedPromise] before either
    assigns the field; once it is settled both continue, the second
    without looking at the field again. The callbacks of both calls are
    then running. *)
Theorem two_ordered_calls_run_together :
  exists g,
    run init [Call true; Call true; Resume 0; Resume 1] = Some g /\
    phases g = [Running true; Running true] /\
    ordered_in_flight g = 2.
Proof. eexists. split; [reflexivity|]. split; reflexivity. Qed.

(** C6. A call whose callback is running settles its own promise with
    the callback's outcome, success or failure, and the promise keeps that
    state whatever happens next; the chain [lockedPromise] is fulfilled
    either way, never rejected; so a call that was waiting on it continues
    and runs its callback, also after a failure. *)
Theorem failure_reported_chain_resolves (g : serializer) (i j : nat) (b : bool)
    (o : result unit) :
  phases g !! i = Some (Running b) ->
  phases g !! j = Some (Awaiting (CatchOf i)) ->
  exists g1 g2,
    step g (Settle i o) = Some g1 /\
    promise_of g1 i = settled o /\
    (forall evs g', run g1 evs = Some g' -> promise_of g' i = settled o) /\
    lock_state g1 (CatchOf i) = Fulfilled /\
    (forall g' l e, lock_state g' l <> Rejected e) /\
    step g1 (Resume j) = Some g2 /\
    phases g2 !! j = Some (Running true).
Proof.
  intros Hi Hj.
  assert (i <> j) as Hij by (intros ->; congruence).
  assert (i < length (phases g)) as Hlen by (by eapply lookup_lt_Some).
  assert (j < length (phases g)) as Hlenj by (by eapply lookup_lt_Some).
  set (g1 := {| lockedPromise := lockedPromise g;
                phases := <[i := Done o]> (phases g) |}).
  assert (phases g1 !! i = Some (Done o)) as Hdone.
  { simpl. by apply list_lookup_insert_eq. }
  assert (promise_of g1 i = settled o) as Hpromise.
  { unfold promise_of. by rewrite Hdone. }
  assert (lock_state g1 (CatchOf i) = Fulfilled) as Hlock.
  { simpl. rewrite Hpromise. by destruct o. }
  assert (phases g1 !! j = Some (Awaiting (CatchOf i))) as Hj1.
  { simpl. by rewrite list_lookup_insert_ne. }
  exists g1, {| lockedPromise := CatchOf j;
                phases := <[j := Running true]> (phases g1) |}.
  split; [by simpl; rewrite Hi|]. split; [done|]. split.
  { intros evs g' Hrun. unfold promise_of.
    by rewrite (run_keeps_done evs g1 g' i o Hrun Hdone). }
  split; [done|]. split; [intros; apply lock_state_not_rejected|]. split.
  - unfold step. rewrite Hj1. by rewrite Hlock.
  - simpl. apply list_lookup_insert_eq. by rewrite length_insert.
Qed.

Lemma failure_reported_chain_resolves_witness :
  let g := {| lockedPromise := CatchOf 0;
              phases := [Running true; Awaiting (CatchOf 0)] |} in
  run init [Call true; Resume 0; Call true] = Some g /\
  phases g !! 0 = Some (Running true) /\
  phases g !! 1 = Some (Awaiting (CatchOf 0)) /\
  exists g1 g2,
    step g (Settle 0 (Err EIO)) = Some g1 /\
    promise_of g1 0 = Rejected EIO /\
    (forall evs g', run g1 evs = Some g' -> promise_of g' 0 = Rejected EIO) /\
    lock_state g1 (CatchOf 0) = Fulfilled /\
    (forall g' l e, lock_state g' l <> Rejected e) /\
    step g1 (Resume 1) = Some g2 /\
    phases g2 !! 1 = Some (Running true).
Proof.
  intros g. split; [reflexivity|]. split; [reflexivity|]. split; [reflexivity|].
  apply (failure_reported_chain_resolves g 0 1 true (Err EIO)); reflexivity.
Defined.

End SerializerFacts.

(** * Further properties *)

(** ** Which files an operation may change *)

(** Membership of a path in a short explicit list. *)
Ltac paths_solver :=
  intros;
  repeat match goal with
         | H : _ ∉ _ :: _ |- _ => apply not_elem_of_cons in H as [? ?]
         | H : _ ∈ _ :: _ |- _ => apply elem_of_cons in H as [?|?]
         | H : _ ∈ [] |- _ => by apply elem_of_nil in H
         end;
  rewrite ?not_elem_of_cons, ?elem_of_cons, ?elem_of_nil;
  naive_solver.

Lemma confined_ret {A} paths (a : A) : confined paths (ret a).
Proof. by intros w p _. Qed.

Lemma confined_throw {A} paths e : confined paths (throw (A:=A) e).
Proof. by intros w p _. Qed.

Lemma confined_bind {A B} paths (m : M A) (k : A -> M B) :
  confined paths m -> (forall a, confined paths (k a)) -> confined paths (bind m k).
Proof.
  intros Hm Hk w p Hp. unfold bind. specialize (Hm w p Hp).
  destruct (m w) as [[a|e] w1]; simpl in *; [|done].
  by rewrite (Hk a w1 p Hp).
Qed.

Lemma confined_catch {A} paths (m : M A) (h : error -> M A) :
  confined paths m -> (forall e, confined paths (h e)) -> confined paths (catch m h).
Proof.
  intros Hm Hh w p Hp. unfold catch. specialize (Hm w p Hp).
  destruct (m w) as [[a|e] w1]; simpl in *; [done|].
  by rewrite (Hh e w1 p Hp).
Qed.

Lemma confined_mono {A} paths paths' (m : M A) :
  (forall p, p ∈ paths -> p ∈ paths') -> confined paths m -> confined paths' m.
Proof. intros Hsub Hm w p Hp. apply Hm. intros Hin. by apply Hp, Hsub. Qed.

Lemma confined_sys_stat path : confined [] (sys_stat path).
Proof.
  intros w p _. rewrite sys_stat_run. simpl. by destruct (injected (faults w)).
Qed.

Lemma confined_sys_read path : confined [] (sys_read path).
Proof.
  intros w p _. rewrite sys_read_run. simpl. by destruct (injected (faults w)).
Qed.

Lemma confined_sys_writeFile path contents doAppend :
  confined [path] (sys_writeFile path contents doAppend).
Proof.
  intros w p Hp. rewrite sys_writeFile_run. simpl.
  destruct (injected (faults w)); [done|]. simpl.
  apply lookup_insert_ne. paths_solver.
Qed.

Lemma confined_sys_unlink path : confined [path] (sys_unlink path).
Proof.
  intros w p Hp. rewrite sys_unlink_run. simpl.
  destruct (injected (faults w)); [done|].
  destruct (files w !! path); [|done]. simpl.
  apply lookup_delete_ne. paths_solver.
Qed.

Lemma confined_sys_rename oldName newName :
  confined [newName; oldName] (sys_rename oldName newName).
Proof.
  intros w p Hp. rewrite sys_rename_run. simpl.
  destruct (injected (faults w)); [done|].
  destruct (files w !! oldName); [|done]. simpl.
  rewrite lookup_insert_ne by paths_solver. apply lookup_delete_ne. paths_solver.
Qed.

Lemma confined_fileExists paths fileName : confined paths (fileExists fileName).
Proof.
  apply (confined_mono []); [paths_solver|]. unfold fileExists.
  apply confined_catch; [|intros; apply confined_ret].
  apply confined_bind; [apply confined_sys_stat|intros; apply confined_ret].
Qed.

Section Confined.

Context {DataType : Type} `{Codec DataType}.

Lemma confined_for_lines {A} paths (callback : A -> DataType -> M (bool * A)) lines :
  (forall acc data, confined paths (callback acc data)) ->
  forall acc, confined paths (for_lines callback lines acc).
Proof.
  intros Hcb. induction lines as [|line rest IH]; intros acc; simpl.
  { apply confined_ret. }
  destruct (Text.truthy (Text.trim line)); [|apply IH].
  destruct (JSON_parse line) as [data|]; [|apply confined_throw].
  apply confined_bind; [apply Hcb|].
  intros [[] acc']; [apply IH|apply confined_ret].
Qed.

(** [forEachRecord] changes only the files its callback changes. *)
Lemma confined_forEachRecord {A} paths this
    (callback : A -> DataType -> M (bool * A)) init b :
  (forall acc data, confined paths (callback acc data)) ->
  confined paths (forEachRecord this callback init b).
Proof.
  intros Hcb. unfold forEachRecord, lockAndExecute.
  apply confined_bind; [apply confined_fileExists|].
  intros []; simpl; [|apply confined_ret].
  apply confined_bind.
  - apply (confined_mono []); [paths_solver|apply confined_sys_read].
  - intros content. by apply confined_for_lines.
Qed.

Lemma confined_addRecords this (records : list DataType) :
  confined [ndjsonFilename this] (addRecords this records).
Proof. apply confined_sys_writeFile. Qed.

Lemma confined_deleteAllRecords this :
  confined [ndjsonFilename this] (deleteAllRecords this).
Proof. apply confined_sys_writeFile. Qed.

Lemma confined_swallowed_deleteFile paths fileName :
  fileName ∈ paths ->
  confined paths (catch (deleteFile fileName) (fun _ => ret tt)).
Proof.
  intros Hin. apply confined_catch; [|intros; apply confined_ret].
  apply (confined_mono [fileName]); [paths_solver|apply confined_sys_unlink].
Qed.

Lemma confined_updateRecords (name : string) findCallback (newRecord : DataType) :
  confined [name; name +:+ ".tmp.ndjson"]
    (updateRecords (new_FileDatabase name) findCallback newRecord).
Proof.
  unfold updateRecords, lockAndExecute.
  apply confined_bind.
  { apply (confined_mono [name +:+ ".tmp.ndjson"]); [paths_solver|].
    apply (confined_deleteAllRecords (new_FileDatabase (name +:+ ".tmp.ndjson"))). }
  intros _. apply confined_bind.
  { apply confined_forEachRecord. intros acc data.
    apply confined_bind; [|intros; apply confined_ret].
    apply (confined_mono [name +:+ ".tmp.ndjson"]); [paths_solver|].
    apply (confined_addRecords (new_FileDatabase (name +:+ ".tmp.ndjson"))). }
  intros []; [|apply confined_ret].
  apply confined_bind; [apply confined_swallowed_deleteFile; paths_solver|].
  intros _. apply confined_sys_rename.
Qed.

Lemma confined_deleteRecords (name : string) (findCallback : DataType -> bool) :
  confined [name; name +:+ ".tmp.ndjson"]
    (deleteRecords (new_FileDatabase name) findCallback).
Proof.
  unfold deleteRecords, lockAndExecute.
  apply confined_bind.
  { apply (confined_mono [name +:+ ".tmp.ndjson"]); [paths_solver|].
    apply (confined_deleteAllRecords (new_FileDatabase (name +:+ ".tmp.ndjson"))). }
  intros _. apply confined_bind.
  { apply confined_forEachRecord. intros acc data.
    destruct (negb (findCallback data)); [|apply confined_ret].
    apply confined_bind; [|intros; apply confined_ret].
    apply (confined_mono [name +:+ ".tmp.ndjson"]); [paths_solver|].
    apply (confined_addRecords (new_FileDatabase (name +:+ ".tmp.ndjson"))). }
  intros []; [|apply confined_swallowed_deleteFile; paths_solver].
  apply confined_bind; [apply confined_swallowed_deleteFile; paths_solver|].
  intros _. apply confined_catch; [apply confined_sys_rename|].
  intros; apply confined_throw.
Qed.

Lemma confined_nil_files {A} (m : M A) w :
  confined [] m -> files (snd (m w)) = files w.
Proof. intros Hm. apply map_eq. intros p. apply Hm. paths_solver. Qed.

(** X1. The read operations change no file, whatever failures are
    injected and whatever the backing file holds. *)
Theorem reads_change_no_file (this : FileDatabase) (findCallback : DataType -> bool)
    (b : bool) (w : world) :
  files (snd (getAllRecords (DataType:=DataType) this b w)) = files w /\
  files (snd (findRecord this findCallback b w)) = files w /\
  files (snd (findRecords this findCallback b w)) = files w /\
  files (snd (getNumRecords (DataType:=DataType) this b w)) = files w /\
  files (snd (getDatabaseSize this w)) = files w.
Proof.
  repeat split; apply confined_nil_files.
  - apply confined_forEachRecord. intros; apply confined_ret.
  - apply confined_forEachRecord. intros; apply confined_ret.
  - apply confined_forEachRecord. intros; apply confined_ret.
  - apply confined_bind; [|intros; apply confined_ret].
    apply confined_forEachRecord. intros; apply confined_ret.
  - apply confined_sys_stat.
Qed.

(** X2. The write operations change no file but their own, whatever
    failures are injected: [addRecords] and [deleteAllRecords] only the
    backing file, [updateRecords] and [deleteRecords] only the backing
    file and the temporary file. *)
Theorem writes_change_own_files_only (name p : string) (w : world)
    (records : list DataType) (findCallback : DataType -> bool)
    (newRecord : DataType) :
  p <> name ->
  let this := new_FileDatabase name in
  files (snd (addRecords this records w)) !! p = files w !! p /\
  files (snd (deleteAllRecords this w)) !! p = files w !! p /\
  (p <> tmpFileName this ->
   files (snd (updateRecords this findCallback newRecord w)) !! p = files w !! p /\
   files (snd (deleteRecords this findCallback w)) !! p = files w !! p).
Proof.
  intros Hp this. split; [|split].
  - apply (confined_addRecords this). paths_solver.
  - apply (confined_deleteAllRecords this). paths_solver.
  - intros Hq. simpl in Hq. split.
    + apply confined_updateRecords. paths_solver.
    + apply confined_deleteRecords. paths_solver.
Qed.

End Confined.

Lemma writes_change_own_files_only_witness :
  let w := World {[ "db" := "true" +:+ nl; "other" := "kept" ]} [false; true] [] in
  "other" <> "db" /\
  files (snd (addRecords db [JNull] w)) !! "other" = files w !! "other" /\
  ("other" <> tmpFileName db ->
   files (snd (updateRecords db is_JTrue JNull w)) !! "other" = files w !! "other" /\
   files (snd (deleteRecords db is_JTrue w)) !! "other" = files w !! "other").
Proof.
  intros w. split; [done|].
  pose proof (writes_change_own_files_only (DataType:=literal) "db" "other" w
                [JNull] is_JTrue JNull ltac:(done)) as Hall.
  destruct Hall as (Hadd & _ & Hreplace). split; [exact Hadd|exact Hreplace].
Defined.

(** ** What the read operations answer *)

Section ReadResults.

Context {DataType : Type} `{Codec DataType}.

(** With no failure injected and the backing file there, [forEachRecord]
    is the loop over the lines of the file. *)
Lemma forEachRecord_no_faults {A} this
    (callback : A -> DataType -> M (bool * A)) init b w content :
  faults w = [] ->
  files w !! ndjsonFilename this = Some content ->
  forEachRecord this callback init b w =
    for_lines callback (Text.readline content) init
      (World (files w) []
         (calls w ++ [Stat (ndjsonFilename this); ReadStream (ndjsonFilename this)])).
Proof.
  intros Hnil Hdb. unfold forEachRecord, lockAndExecute, bind.
  rewrite fileExists_run, Hnil, Hdb. simpl.
  rewrite sys_read_run. simpl. rewrite Hdb. by rewrite <- app_assoc.
Qed.

(** The callback of [findRecord], over lines that all parse: the first
    record accepted, or what was found before. *)
Lemma for_lines_find (callback : DataType -> bool) lines : forall R found w,
  parse_lines lines = Some R ->
  for_lines
    (fun foundRecord record =>
       let isAccepted := callback record in
       ret (negb isAccepted, if isAccepted then Some record else foundRecord))
    lines found w
  = (Ok (match List.find callback R with
         | Some r => Some r
         | None => found
         end), w).
Proof.
  induction lines as [|line rest IH]; intros R found w HR; simpl in *.
  { by simplify_eq. }
  destruct (Text.truthy (Text.trim line)); [|by apply IH].
  destruct (JSON_parse line) as [data|]; [|done].
  destruct (parse_lines rest) as [R'|]; [|done]. simplify_eq/=.
  unfold bind, ret at 1. destruct (callback data); simpl; [done|].
  by apply IH.
Qed.

(** The callback of [findRecord] stops at the first record accepted: the
    lines after it are not looked at. *)
Lemma for_lines_find_stops (callback : DataType -> bool) line r after :
  forall before R found w,
    parse_lines before = Some R -> existsb callback R = false ->
    Text.truthy (Text.trim line) = true -> JSON_parse line = Some r ->
    callback r = true ->
    for_lines
      (fun foundRecord record =>
         let isAccepted := callback record in
         ret (negb isAccepted, if isAccepted then Some record else foundRecord))
      (before ++ line :: after) found w
    = (Ok (Some r), w).
Proof.
  induction before as [|l rest IH]; intros R found w HR Hnone Hline Hparse Hr; simpl in *.
  { rewrite Hline, Hparse. unfold bind, ret at 1. by rewrite Hr. }
  destruct (Text.truthy (Text.trim l)); [|by eapply IH].
  destruct (JSON_parse l) as [data|]; [|done].
  destruct (parse_lines rest) as [R'|]; [|done]. simplify_eq/=.
  apply orb_false_iff in Hnone as [Hdata Hnone].
  unfold bind, ret at 1. rewrite Hdata. simpl. by eapply IH.
Qed.

Lemma fold_left_accept (callback : DataType -> bool) (R : list DataType) :
  forall found,
    fold_left (fun foundRecords record =>
                 if callback record then foundRecords ++ [record] else foundRecords)
      R found
    = found ++ List.filter callback R.
Proof.
  induction R as [|r R IH]; intros found; simpl; [by rewrite app_nil_r|].
  rewrite IH. destruct (callback r); [|done]. by rewrite <- app_assoc.
Qed.

(** What the scans answer on a world with no failure injected, from what
    [getAllRecords] answers there. *)
Lemma scans_from_getAllRecords this (callback : DataType -> bool) b w R :
  faults w = [] ->
  fst (getAllRecords this true w) = Ok R ->
  fst (findRecord this callback b w) = Ok (List.find callback R) /\
  fst (findRecords this callback b w) = Ok (List.filter callback R) /\
  fst (getNumRecords (DataType:=DataType) this b w) = Ok (length R).
Proof.
  intros Hnil Hpre. rewrite getAllRecords_result in Hpre by done.
  destruct (files w !! ndjsonFilename this) as [content|] eqn:Hdb.
  - destruct (records_of content) as [R0|] eqn:HR; [|done]. simplify_eq.
    split; [|split].
    + unfold findRecord. rewrite (forEachRecord_no_faults _ _ _ _ _ content) by done.
      rewrite (for_lines_find callback _ R) by done. simpl.
      by destruct (List.find callback R).
    + unfold findRecords. rewrite (forEachRecord_no_faults _ _ _ _ _ content) by done.
      rewrite (for_lines_pure
                 (fun foundRecords record =>
                    if callback record then foundRecords ++ [record]
                    else foundRecords)).
      unfold records_of in HR. rewrite HR. simpl. by rewrite fold_left_accept.
    + unfold getNumRecords, bind. rewrite getAllRecords_no_faults by done.
      by rewrite Hdb, HR.
  - simplify_eq. assert (injected (faults w) = true \/
                          files w !! ndjsonFilename this = None) as Hwhy by (by right).
    split; [|split].
    + unfold findRecord. by rewrite forEachRecord_not_found.
    + unfold findRecords. by rewrite forEachRecord_not_found.
    + unfold getNumRecords, getAllRecords, bind. by rewrite forEachRecord_not_found.
Qed.

(** X3. [findRecord] answers the first record, in file order, that the
    predicate accepts, and no record when it accepts none or the backing
    file is absent. *)
Theorem findRecord_first_accepted (name : string) (fs : gmap string string)
    (log : list syscall) (R : list DataType) (callback : DataType -> bool)
    (b : bool) :
  let this := new_FileDatabase name in
  fst (getAllRecords this true (World fs [] log)) = Ok R ->
  fst (findRecord this callback b (World fs [] log)) = Ok (List.find callback R).
Proof. intros this Hpre. by apply scans_from_getAllRecords. Qed.

(** X4. [findRecords] answers the records the predicate accepts, in file
    order. *)
Theorem findRecords_all_accepted (name : string) (fs : gmap string string)
    (log : list syscall) (R : list DataType) (callback : DataType -> bool)
    (b : bool) :
  let this := new_FileDatabase name in
  fst (getAllRecords this true (World fs [] log)) = Ok R ->
  fst (findRecords this callback b (World fs [] log))
    = Ok (List.filter callback R).
Proof. intros this Hpre. by apply scans_from_getAllRecords. Qed.

(** X5. [findRecord] stops reading at the first record accepted: when the
    lines before it parse and hold no accepted record, it answers that
    record whatever the lines after it hold, also lines that do not
    parse. *)
Theorem findRecord_stops_at_first_match (name content : string)
    (fs : gmap string string) (log : list syscall)
    (before after : list string) (line : string)
    (R : list DataType) (r : DataType) (callback : DataType -> bool) (b : bool) :
  fs !! name = Some content ->
  Text.readline content = before ++ line :: after ->
  parse_lines before = Some R -> existsb callback R = false ->
  Text.truthy (Text.trim line) = true -> JSON_parse line = Some r ->
  callback r = true ->
  fst (findRecord (new_FileDatabase name) callback b (World fs [] log))
    = Ok (Some r).
Proof.
  intros Hdb Hlines HR Hnone Hline Hparse Hr. unfold findRecord.
  rewrite (forEachRecord_no_faults _ _ _ _ _ content) by done.
  rewrite Hlines. by rewrite (for_lines_find_stops callback line r after before R).
Qed.


End ReadResults.

(** ** Appending and clearing *)

Module TextMore.
Import Text TextFacts.

(** The lines of a text cut at a line feed: those of the part before it,
    less the empty line a final CR leaves pending, then those of the part
    after it. *)
Lemma segments_app_LF (after : string) : forall before : string,
  exists lines,
    lines <> [] /\
    (segments before = lines \/ segments before = lines ++ [EmptyString]) /\
    segments (before +:+ String LF after) = lines ++ segments after.
Proof.
  induction before as [|c before IH].
  { exists [EmptyString]. split; [done|]. split; [by left|done]. }
  destruct IH as (lines & Hne & Hbefore & Hcut).
  rewrite app_cons. simpl.
  destruct (is_LF c).
  { exists (EmptyString :: lines). split; [done|]. split.
    - destruct Hbefore as [-> | ->]; [by left|by right].
    - by rewrite Hcut. }
  destruct (is_CR c).
  - destruct before as [|c' before'].
    + exists [EmptyString]. split; [done|]. split; [by right|done].
    + rewrite app_cons in *. destruct (is_LF c').
      * exists lines. by split.
      * exists (EmptyString :: lines). split; [done|]. split.
        -- destruct Hbefore as [-> | ->]; [by left|by right].
        -- by rewrite Hcut.
  - rewrite Hcut. destruct lines as [|l lines]; [done|].
    exists (String c l :: lines). split; [done|]. split; [|done].
    destruct Hbefore as [-> | ->]; [by left|by right].
Qed.

End TextMore.

Section Appending.

Context {DataType : Type} `{Codec DataType}.

Lemma parse_lines_cons (l : string) (rest : list string) :
  parse_lines (DataType:=DataType) (l :: rest) =
    if Text.truthy (Text.trim l) then
      match JSON_parse l with
      | None => None
      | Some data => cons data <$> parse_lines rest
      end
    else parse_lines rest.
Proof. reflexivity. Qed.

(** The empty last line [readline] does not emit is a blank line. *)
Lemma parse_lines_drop_last_empty (lines : list string) :
  parse_lines (DataType:=DataType) (Text.drop_last_empty lines) = parse_lines lines.
Proof.
  induction lines as [|l lines IH]; [done|].
  destruct lines as [|l' lines'].
  - by destruct l.
  - change (Text.drop_last_empty (l :: l' :: lines'))
      with (l :: Text.drop_last_empty (l' :: lines')).
    by rewrite !(parse_lines_cons l), IH.
Qed.

Lemma parse_lines_app (lines1 lines2 : list string) :
  parse_lines (DataType:=DataType) (lines1 ++ lines2) =
    match parse_lines lines1, parse_lines lines2 with
    | Some R1, Some R2 => Some (R1 ++ R2)
    | _, _ => None
    end.
Proof.
  induction lines1 as [|l lines1 IH]; simpl.
  { by destruct (parse_lines lines2). }
  destruct (Text.truthy (Text.trim l)); [|done].
  destruct (JSON_parse l) as [data|]; [|done].
  rewrite IH. destruct (parse_lines lines1), (parse_lines lines2); done.
Qed.

(** The records of a text cut at a line feed: those before it, then those
    after it. *)
Lemma records_of_app_LF (before after : string) :
  records_of (DataType:=DataType) (before +:+ String Text.LF after) =
    match records_of before, records_of after with
    | Some R1, Some R2 => Some (R1 ++ R2)
    | _, _ => None
    end.
Proof.
  unfold records_of, Text.readline. rewrite !parse_lines_drop_last_empty.
  destruct (TextMore.segments_app_LF after before) as (lines & _ & Hbefore & ->).
  rewrite parse_lines_app.
  destruct Hbefore as [-> | ->]; [done|].
  rewrite parse_lines_app. simpl.
  destruct (parse_lines lines) as [R1|]; [|done].
  by rewrite app_nil_r.
Qed.

Lemma length_newJson (records : list DataType) :
  String.length (newJson records) = appended_size records.
Proof.
  unfold appended_size. induction records as [|r rs IH]; [done|].
  rewrite newJson_cons, TextFacts.length_app. simpl. rewrite IH. lia.
Qed.

(** [addRecords] with no failure injected: one appending write. *)
Lemma addRecords_no_faults this (records : list DataType) w :
  faults w = [] ->
  addRecords this records w =
    (Ok tt,
     World (<[ndjsonFilename this :=
                default EmptyString (files w !! ndjsonFilename this)
                  +:+ newJson records]> (files w))
       [] (calls w ++ [WriteFile (ndjsonFilename this) true])).
Proof.
  intros Hnil. unfold addRecords, lockAndExecute, writeFile.
  rewrite sys_writeFile_run. by rewrite Hnil.
Qed.

Lemma deleteAllRecords_no_faults this w :
  faults w = [] ->
  deleteAllRecords this w =
    (Ok tt,
     World (<[ndjsonFilename this := EmptyString]> (files w))
       [] (calls w ++ [WriteFile (ndjsonFilename this) false])).
Proof.
  intros Hnil. unfold deleteAllRecords, lockAndExecute, writeFile.
  rewrite sys_writeFile_run. by rewrite Hnil.
Qed.

(** X7. Two [addRecords] calls in a row leave the files that one call
    with the two batches joined leaves. *)
Theorem addRecords_twice (name : string) (fs : gmap string string)
    (log : list syscall) (R1 R2 : list DataType) :
  let this := new_FileDatabase name in
  files (snd ((let* _ := addRecords this R1 in addRecords this R2) (World fs [] log)))
    = files (snd (addRecords this (R1 ++ R2) (World fs [] log))).
Proof.
  intros this. unfold bind.
  rewrite (addRecords_no_faults this R1) by done.
  rewrite (addRecords_no_faults this R2) by done.
  rewrite (addRecords_no_faults this (R1 ++ R2)) by done. simpl.
  rewrite lookup_insert_eq, insert_insert_eq. simpl.
  by rewrite newJson_app, TextFacts.app_assoc.
Qed.

(** X8. [addRecords] with no record still writes: it creates the backing
    file, empty, when it is absent, and leaves its contents as they are
    otherwise. *)
Theorem addRecords_nothing (name : string) (fs : gmap string string)
    (log : list syscall) :
  let this := new_FileDatabase name in
  let run := addRecords (DataType:=DataType) this [] (World fs [] log) in
  fst run = Ok tt /\
  files (snd run) !! name = Some (default EmptyString (fs !! name)) /\
  calls (snd run) = log ++ [WriteFile name true].
Proof.
  intros this run. subst run. rewrite addRecords_no_faults by done. simpl.
  split; [done|]. split; [|done].
  rewrite lookup_insert_eq. change (newJson []) with EmptyString.
  by rewrite TextFacts.app_nil_r.
Qed.

(** X9. After [addRecords], [getDatabaseSize] answers the size of the
    file before the call (zero when it was absent) plus, for each record
    added, the length of its text and one for the line feed. *)
Theorem getDatabaseSize_after_addRecords (name : string)
    (fs : gmap string string) (log : list syscall) (records : list DataType) :
  let this := new_FileDatabase name in
  fst ((let* _ := addRecords this records in getDatabaseSize this)
         (World fs [] log))
    = Ok (String.length (default EmptyString (fs !! name)) + appended_size records).
Proof.
  intros this. unfold bind. rewrite addRecords_no_faults by done.
  unfold getDatabaseSize. rewrite sys_stat_run. simpl.
  rewrite lookup_insert_eq. simpl.
  by rewrite TextFacts.length_app, length_newJson.
Qed.

(** X10. After [deleteAllRecords] the backing file exists and is empty,
    whatever it held and also when it was absent: [getAllRecords] answers
    no record and [getDatabaseSize] answers zero. *)
Theorem deleteAllRecords_empties (name : string) (fs : gmap string string)
    (log : list syscall) :
  let this := new_FileDatabase name in
  let run := deleteAllRecords this (World fs [] log) in
  fst run = Ok tt /\
  files (snd run) !! name = Some EmptyString /\
  fst (getAllRecords (DataType:=DataType) this true (snd run)) = Ok [] /\
  fst (getDatabaseSize this (snd run)) = Ok 0.
Proof.
  intros this run. subst run. rewrite deleteAllRecords_no_faults by done. simpl.
  split; [done|]. split; [apply lookup_insert_eq|]. split.
  - rewrite getAllRecords_result by done. simpl. by rewrite lookup_insert_eq.
  - unfold getDatabaseSize. rewrite sys_stat_run. simpl.
    by rewrite lookup_insert_eq.
Qed.

Context `{!LawfulCodec DataType}.

(** X11. On a backing file that ends with a line feed, [addRecords]
    appends: [getAllRecords] then answers the records of before followed
    by the records added, in order. *)
Theorem addRecords_appends (name before : string) (fs : gmap string string)
    (log : list syscall) (R0 R : list DataType) :
  fs !! name = Some (before +:+ nl) ->
  records_of (before +:+ nl) = Some R0 ->
  let this := new_FileDatabase name in
  fst ((let* _ := addRecords this R in getAllRecords this true) (World fs [] log))
    = Ok (R0 ++ R).
Proof.
  intros Hdb HR0 this. unfold bind. rewrite addRecords_no_faults by done.
  rewrite getAllRecords_result by done. simpl.
  rewrite lookup_insert_eq, Hdb. simpl.
  unfold nl in *. rewrite TextFacts.app_assoc.
  change (String Text.LF EmptyString +:+ newJson R) with (String Text.LF (newJson R)).
  rewrite records_of_app_LF in HR0 |- *.
  rewrite records_of_newJson.
  destruct (records_of before) as [R1|]; [|done].
  change (records_of (DataType:=DataType) EmptyString) with (Some (@nil DataType)) in HR0.
  simpl in HR0. rewrite app_nil_r in HR0. by simplify_eq.
Qed.

End Appending.

(** ** Replacing, one call after another *)

Section Replacing.

Context {DataType : Type} `{Codec DataType}.




Context `{!LawfulCodec DataType}.

(** [updateRecords] from any world with no failure injected. *)
Lemma updateRecords_next (name : string) (w : world) (R : list DataType)
    (findCallback : DataType -> bool) (newRecord : DataType) :
  let this := new_FileDatabase name in
  faults w = [] ->
  fst (getAllRecords this true w) = Ok R ->
  exists w',
    updateRecords this findCallback newRecord w = (Ok tt, w') /\
    faults w' = [] /\
    fst (getAllRecords this true w') = Ok (map (updated findCallback newRecord) R).
Proof.
  intros this Hnil Hpre. rewrite getAllRecords_result in Hpre by done.
  simpl in Hpre.
  destruct (updateRecords_outcome name findCallback newRecord w)
    as (r & w' & Hrun & Hfl & Hres).
  specialize (Hfl Hnil). destruct r as [[]|e].
  - exists w'. split; [done|]. split; [done|].
    rewrite getAllRecords_result by done. simpl.
    destruct Hres as [(Hname & _ & Hwhy)|(S & R0 & Hdb & HR & _ & Hname & _)].
    + rewrite Hname.
      destruct Hwhy as [Hne|[Hnone|(S & Hdb & HR)]]; [done| |].
      * rewrite Hnone in Hpre |- *. by simplify_eq.
      * rewrite Hdb in Hpre |- *. rewrite HR in Hpre |- *. by simplify_eq.
    + rewrite Hdb, HR in Hpre. simplify_eq.
      by rewrite Hname, records_of_newJson.
  - destruct Hres as [[Hne|(S & Hdb & HR)] _]; [done|].
    by rewrite Hdb, HR in Hpre.
Qed.

(** [deleteRecords] from any world with no failure injected. *)
Lemma deleteRecords_next (name : string) (w : world) (R : list DataType)
    (findCallback : DataType -> bool) :
  let this := new_FileDatabase name in
  faults w = [] ->
  fst (getAllRecords this true w) = Ok R ->
  exists w',
    deleteRecords this findCallback w = (Ok tt, w') /\
    faults w' = [] /\
    fst (getAllRecords this true w')
      = Ok (List.filter (fun r => negb (findCallback r)) R) /\
    files w' !! tmpFileName this = None /\
    (existsb findCallback R = false -> files w' !! name = files w !! name).
Proof.
  intros this Hnil Hpre. rewrite getAllRecords_result in Hpre by done.
  simpl in Hpre.
  destruct (deleteRecords_outcome name findCallback w)
    as (r & w' & Hrun & Hfl & Hres).
  specialize (Hfl Hnil). destruct r as [[]|e].
  - exists w'. split; [done|]. split; [done|].
    rewrite getAllRecords_result by done. simpl.
    destruct Hres as [(Hname & Htmp & Hwhy)|(S & R0 & Hdb & HR & Hany & Hname & Htmp)].
    + split; [|split; [by apply Htmp|done]]. rewrite Hname.
      destruct Hwhy as [Hne|[Hnone|(S & R0 & Hdb & HR & Hany)]]; [done| |].
      * rewrite Hnone in Hpre |- *. by simplify_eq.
      * rewrite Hdb in Hpre |- *. rewrite HR in Hpre |- *. simplify_eq.
        by rewrite filter_none_rejected.
    + rewrite Hdb, HR in Hpre. simplify_eq. split; [|split; [done|]].
      * by rewrite Hname, records_of_newJson.
      * intros Hnone. by rewrite Hnone in Hany.
  - destruct Hres as [[Hne|(S & Hdb & HR)] _]; [done|].
    by rewrite Hdb, HR in Hpre.
Qed.

Lemma map_updated_twice (findCallback : DataType -> bool) (newRecord : DataType)
    (R : list DataType) :
  map (updated findCallback newRecord) (map (updated findCallback newRecord) R)
  = map (updated findCallback newRecord) R.
Proof.
  rewrite map_map. apply map_ext. intros r. unfold updated.
  destruct (findCallback r) eqn:Hr; [|by rewrite Hr].
  by destruct (findCallback newRecord).
Qed.

Lemma filter_rejected_none (findCallback : DataType -> bool) (R : list DataType) :
  existsb findCallback (List.filter (fun r => negb (findCallback r)) R) = false.
Proof.
  induction R as [|r R IH]; [done|]. simpl.
  destruct (findCallback r) eqn:Hr; simpl; [done|]. by rewrite Hr.
Qed.

Lemma find_none_accepted (findCallback : DataType -> bool) (R : list DataType) :
  existsb findCallback R = false -> List.find findCallback R = None.
Proof.
  induction R as [|r R IH]; [done|]. simpl.
  destruct (findCallback r); [done|]. apply IH.
Qed.

Lemma filter_none_accepted (findCallback : DataType -> bool) (R : list DataType) :
  existsb findCallback R = false -> List.filter findCallback R = [].
Proof.
  induction R as [|r R IH]; [done|]. simpl.
  destruct (findCallback r); [done|]. apply IH.
Qed.

(** X14. [updateRecords] is idempotent: the same call made twice in a row
    stores what it stores made once. *)
Theorem updateRecords_twice (name : string) (fs : gmap string string)
    (log : list syscall) (R : list DataType)
    (findCallback : DataType -> bool) (newRecord : DataType) :
  let this := new_FileDatabase name in
  let update := updateRecords this findCallback newRecord in
  fst (getAllRecords this true (World fs [] log)) = Ok R ->
  fst ((let* _ := update in let* _ := update in getAllRecords this true)
         (World fs [] log))
    = Ok (map (updated findCallback newRecord) R) /\
  fst ((let* _ := update in getAllRecords this true) (World fs [] log))
    = Ok (map (updated findCallback newRecord) R).
Proof.
  intros this update Hpre. subst update.
  destruct (updateRecords_next name (World fs [] log) R findCallback newRecord
              eq_refl Hpre) as (w1 & Hrun1 & Hnil1 & Hget1).
  destruct (updateRecords_next name w1 _ findCallback newRecord Hnil1 Hget1)
    as (w2 & Hrun2 & Hnil2 & Hget2).
  fold this in Hrun1, Hrun2, Hget1, Hget2.
  unfold bind. rewrite Hrun1, Hrun2. split; [|done].
  by rewrite Hget2, map_updated_twice.
Qed.

(** X15. After [deleteRecords] no record the predicate accepts is left:
    [findRecord] with the same predicate answers no record and
    [findRecords] answers none. *)
Theorem deleteRecords_then_find (name : string) (fs : gmap string string)
    (log : list syscall) (R : list DataType)
    (findCallback : DataType -> bool) (b : bool) :
  let this := new_FileDatabase name in
  fst (getAllRecords this true (World fs [] log)) = Ok R ->
  fst ((let* _ := deleteRecords this findCallback in
        findRecord this findCallback b) (World fs [] log)) = Ok None /\
  fst ((let* _ := deleteRecords this findCallback in
        findRecords this findCallback b) (World fs [] log)) = Ok [].
Proof.
  intros this Hpre.
  destruct (deleteRecords_next name (World fs [] log) R findCallback eq_refl Hpre)
    as (w1 & Hrun1 & Hnil1 & Hget1 & _).
  fold this in Hrun1, Hget1.
  destruct (scans_from_getAllRecords this findCallback b w1 _ Hnil1 Hget1)
    as (Hfind & Hfinds & _).
  unfold bind. rewrite Hrun1. split.
  - by rewrite Hfind, find_none_accepted by apply filter_rejected_none.
  - by rewrite Hfinds, filter_none_accepted by apply filter_rejected_none.
Qed.

(** X16. [deleteRecords] is idempotent, and the second call swaps
    nothing: made twice in a row it stores what it stores made once, and
    the second call leaves the backing file of the first, byte for
    byte. *)
Theorem deleteRecords_twice (name : string) (fs : gmap string string)
    (log : list syscall) (R : list DataType) (findCallback : DataType -> bool) :
  let this := new_FileDatabase name in
  let delete := deleteRecords this findCallback in
  fst (getAllRecords this true (World fs [] log)) = Ok R ->
  fst ((let* _ := delete in let* _ := delete in getAllRecords this true)
         (World fs [] log))
    = Ok (List.filter (fun r => negb (findCallback r)) R) /\
  files (snd ((let* _ := delete in delete) (World fs [] log))) !! name
    = files (snd (delete (World fs [] log))) !! name.
Proof.
  intros this delete Hpre. subst delete.
  destruct (deleteRecords_next name (World fs [] log) R findCallback eq_refl Hpre)
    as (w1 & Hrun1 & Hnil1 & Hget1 & _).
  destruct (deleteRecords_next name w1 _ findCallback Hnil1 Hget1)
    as (w2 & Hrun2 & Hnil2 & Hget2 & _ & Hsame).
  fold this in Hrun1, Hrun2, Hget1, Hget2.
  unfold bind. rewrite Hrun1, Hrun2. simpl. split.
  - rewrite Hget2. f_equal. apply filter_none_rejected, filter_rejected_none.
  - apply Hsame, filter_rejected_none.
Qed.

(** X17. A successful [deleteRecords] leaves no temporary file, whether
    it swapped or not. *)
Theorem deleteRecords_removes_tmp_file (name : string) (fs : gmap string string)
    (log : list syscall) (R : list DataType) (findCallback : DataType -> bool) :
  let this := new_FileDatabase name in
  fst (getAllRecords this true (World fs [] log)) = Ok R ->
  exists w',
    deleteRecords this findCallback (World fs [] log) = (Ok tt, w') /\
    files w' !! (name +:+ ".tmp.ndjson") = None.
Proof.
  intros this Hpre.
  destruct (deleteRecords_next name (World fs [] log) R findCallback eq_refl Hpre)
    as (w1 & Hrun1 & _ & _ & Htmp & _).
  by exists w1.
Qed.

(** X18. After a [deleteRecords] that deleted a record,
    [getDatabaseSize] answers, for each record kept, the length of its
    text and one for the line feed: blank lines and other bytes of the
    old file are gone. *)
Theorem getDatabaseSize_after_deleteRecords (name : string)
    (fs : gmap string string) (log : list syscall) (R : list DataType)
    (findCallback : DataType -> bool) :
  let this := new_FileDatabase name in
  fst (getAllRecords this true (World fs [] log)) = Ok R ->
  existsb findCallback R = true ->
  fst ((let* _ := deleteRecords this findCallback in getDatabaseSize this)
         (World fs [] log))
    = Ok (appended_size (List.filter (fun r => negb (findCallback r)) R)).
Proof.
  intros this Hpre Hany. rewrite getAllRecords_result in Hpre by done.
  simpl in Hpre.
  destruct (deleteRecords_outcome name findCallback (World fs [] log))
    as (r & w' & Hrun & Hfl & Hres).
  specialize (Hfl eq_refl). fold this in Hrun. unfold bind. rewrite Hrun.
  simpl in Hres. destruct r as [[]|e].
  - unfold getDatabaseSize. rewrite sys_stat_run, Hfl. simpl.
    destruct Hres as [(_ & _ & Hwhy)|(S & R0 & Hdb & HR & _ & Hname & _)].
    + destruct Hwhy as [Hne|[Hnone|(S & R0 & Hdb & HR & Hnone)]]; [done| |].
      * rewrite Hnone in Hpre. by simplify_eq.
      * rewrite Hdb, HR in Hpre. simplify_eq. by rewrite Hany in Hnone.
    + rewrite Hdb, HR in Hpre. simplify_eq. by rewrite Hname, length_newJson.
  - destruct Hres as [[Hne|(S & Hdb & HR)] _]; [done|].
    by rewrite Hdb, HR in Hpre.
Qed.

End Replacing.

(** ** The serializer, further *)

Module SerializerMore.
Import Serializer.

Lemma no_awaiting (phs : list phase) j l :
  existsb is_awaiting phs = false -> phs !! j = Some (Awaiting l) -> False.
Proof.
  intros Hnone Hj.
  assert (existsb is_awaiting phs = true) as Hsome; [|congruence].
  apply existsb_exists. exists (Awaiting l). split; [|done].
  apply list_elem_of_In. by eapply list_elem_of_lookup_2.
Qed.

Lemma lookup_snoc_Some (phs : list phase) (ph ph' : phase) i :
  (phs ++ [ph]) !! i = Some ph' ->
  phs !! i = Some ph' \/ (i = length phs /\ ph' = ph).
Proof.
  intros Hi. apply lookup_app_Some in Hi as [Hi|[Hlen Hi]]; [by left|right].
  apply list_lookup_singleton_Some in Hi as [Hi ->]. split; [lia|done].
Qed.

Lemma lookup_insert_Some_cases (phs : list phase) (ph ph' : phase) i j :
  <[i := ph]> phs !! j = Some ph' ->
  (i = j /\ ph' = ph) \/ (i <> j /\ phs !! j = Some ph').
Proof.
  intros Hj. destruct (decide (i = j)) as [->|Hne].
  - left. split; [done|].
    destruct (decide (j < length phs)) as [Hlt|Hge].
    + rewrite list_lookup_insert_eq in Hj by done. by simplify_eq.
    + rewrite list_insert_ge in Hj by lia.
      apply lookup_lt_Some in Hj. lia.
  - right. split; [done|]. by rewrite list_lookup_insert_ne in Hj.
Qed.

Lemma spaced_inv_init : spaced_inv init.
Proof.
  split; [|split].
  - intros j l Hj. by destruct j.
  - intros j j' l l' Hj. by destruct j.
  - intros i b Hi. by destruct i.
Qed.

Lemma spaced_inv_step g ev g' :
  spaced_inv g -> step_spaced g ev = Some g' -> spaced_inv g'.
Proof.
  intros (Hlock & Hone & Hrun) Hstep.
  destruct ev as [[]|j|i o]; simpl in Hstep; [|done| |].
  - (* an ordered call, no call suspended *)
    destruct (existsb is_awaiting (phases g)) eqn:Hnone; [done|].
    simplify_eq. repeat split; simpl.
    + intros j l Hj. apply lookup_snoc_Some in Hj as [Hj|[_ Hj]]; [|by simplify_eq].
      by eapply Hlock.
    + intros j j' l l' Hj Hj'.
      apply lookup_snoc_Some in Hj as [Hj|[-> _]];
        apply lookup_snoc_Some in Hj' as [Hj'|[-> _]]; try done;
        exfalso; by eapply no_awaiting.
    + intros i b Hi. apply lookup_snoc_Some in Hi as [Hi|[_ Hi]]; [|done].
      by eapply Hrun.
  - (* a suspended call continues *)
    destruct (phases g !! j) as [[l| |]|] eqn:Hj; try done.
    pose proof (Hlock j l Hj) as ->.
    destruct (lock_state g (lockedPromise g)) eqn:Hstate; [done| |].
    + simplify_eq.
      assert (forall i b, phases g !! i = Some (Running b) -> False) as Hidle.
      { intros i b Hi. rewrite (Hrun i b Hi) in Hstate. simpl in Hstate.
        unfold promise_of in Hstate. by rewrite Hi in Hstate. }
      repeat split; simpl.
      * intros j' l Hj'. apply lookup_insert_Some_cases in Hj' as [[_ ?]|[Hne Hj']];
          [done|]. by rewrite (Hone j j' _ _ Hj Hj') in Hne.
      * intros j1 j2 l1 l2 Hj1 Hj2.
        apply lookup_insert_Some_cases in Hj1 as [[_ ?]|[_ Hj1]]; [done|].
        apply lookup_insert_Some_cases in Hj2 as [[_ ?]|[_ Hj2]]; [done|].
        by eapply Hone.
      * intros i b Hi. apply lookup_insert_Some_cases in Hi as [[-> _]|[_ Hi]];
          [done|]. exfalso. by eapply Hidle.
    + exfalso. by eapply SerializerFacts.lock_state_not_rejected.
  - (* a running callback ends *)
    destruct (phases g !! i) as [[| |]|] eqn:Hi; try done.
    simplify_eq. repeat split; simpl.
    + intros j l Hj. apply lookup_insert_Some_cases in Hj as [[_ ?]|[_ Hj]]; [done|].
      by eapply Hlock.
    + intros j1 j2 l1 l2 Hj1 Hj2.
      apply lookup_insert_Some_cases in Hj1 as [[_ ?]|[_ Hj1]]; [done|].
      apply lookup_insert_Some_cases in Hj2 as [[_ ?]|[_ Hj2]]; [done|].
      by eapply Hone.
    + intros i' b Hi'.
      apply lookup_insert_Some_cases in Hi' as [[_ ?]|[_ Hi']]; [done|].
      by eapply Hrun.
Qed.

Lemma spaced_inv_run evs : forall g g',
  spaced_inv g -> run_spaced g evs = Some g' -> spaced_inv g'.
Proof.
  induction evs as [|ev rest IH]; intros g g' Hinv Hrun; simpl in Hrun.
  - by simplify_eq.
  - destruct (step_spaced g ev) as [g1|] eqn:Hstep; [|done].
    eapply IH; [|done]. by eapply spaced_inv_step.
Qed.

(** A list with its accepted elements all at one index has at most one. *)
Lemma filter_at_most_one (accept : phase -> bool) (phs : list phase) :
  (forall i i' ph ph',
     phs !! i = Some ph -> phs !! i' = Some ph' ->
     accept ph = true -> accept ph' = true -> i = i') ->
  length (List.filter accept phs) <= 1.
Proof.
  induction phs as [|ph phs IH]; intros Hone; simpl; [lia|].
  destruct (accept ph) eqn:Hph.
  - assert (List.filter accept phs = []) as ->; [|simpl; lia].
    destruct (List.filter accept phs) as [|ph' rest] eqn:Hfilter; [done|].
    assert (In ph' (List.filter accept phs)) as Hin by (rewrite Hfilter; by left).
    apply filter_In in Hin as [Hin Hph'].
    apply list_elem_of_In, list_elem_of_lookup in Hin as [i Hi].
    by specialize (Hone 0 (S i) ph ph' eq_refl Hi Hph Hph').
  - apply IH. intros i i' ph1 ph2 Hi Hi' H1 H2.
    by specialize (Hone (S i) (S i') ph1 ph2 Hi Hi' H1 H2); simplify_eq.
Qed.

(** X19. When every call is made with [waitForUnlock = true] and only
    once the call before it has passed its [await], the serializer does
    serialize: at no time are the callbacks of two calls running. *)
Theorem spaced_calls_run_one_at_a_time (evs : list event) (g : serializer) :
  run_spaced init evs = Some g -> ordered_in_flight g <= 1.
Proof.
  intros Hrun.
  destruct (spaced_inv_run evs init g spaced_inv_init Hrun) as (_ & _ & Hone).
  apply filter_at_most_one. intros i i' ph ph' Hi Hi' Hph Hph'.
  destruct ph as [|[]|]; try done. destruct ph' as [|[]|]; try done.
  pose proof (Hone i true Hi) as Hlock. rewrite (Hone i' true Hi') in Hlock.
  by simplify_eq.
Qed.

Lemma run_step g ev g' rest :
  step g ev = Some g' -> run g (ev :: rest) = run g' rest.
Proof. intros Hstep. cbn [run]. by rewrite Hstep. Qed.

Lemma lookup_snoc2_first (phs : list phase) ph1 ph2 :
  ((phs ++ [ph1]) ++ [ph2]) !! length phs = Some ph1.
Proof. by induction phs. Qed.

Lemma lookup_snoc2_second (phs : list phase) ph1 ph2 :
  ((phs ++ [ph1]) ++ [ph2]) !! S (length phs) = Some ph2.
Proof. by induction phs. Qed.

Lemma lookup_snoc2_old (phs : list phase) ph1 ph2 i ph :
  phs !! i = Some ph -> ((phs ++ [ph1]) ++ [ph2]) !! i = Some ph.
Proof. intros Hi. by apply lookup_app_l_Some, lookup_app_l_Some. Qed.

(** X20. A call made with [waitForUnlock = false] takes the field
    [lockedPromise] over from the call that is running: a later call with
    [waitForUnlock = true] waits for the unordered call only, and runs as
    soon as that one ends, beside the call that was running. So the scan
    [updateRecords] and [deleteRecords] make with [waitForUnlock = false]
    lets a later caller in before their swap. *)
Theorem unordered_call_releases_the_lock (g : serializer) (i : nat)
    (o : result unit) :
  phases g !! i = Some (Running true) ->
  let n := length (phases g) in
  exists g',
    run g [Call false; Call true; Settle n o; Resume (S n)] = Some g' /\
    phases g' !! i = Some (Running true) /\
    phases g' !! S n = Some (Running true).
Proof.
  intros Hi n.
  assert (i < n) as Hlt by (by eapply lookup_lt_Some).
  set (g1 := {| lockedPromise := CatchOf n;
                phases := phases g ++ [Running false] |}).
  set (g2 := {| lockedPromise := CatchOf n;
                phases := (phases g ++ [Running false]) ++ [Awaiting (CatchOf n)] |}).
  set (g3 := {| lockedPromise := CatchOf n;
                phases := <[n := Done o]> (phases g2) |}).
  set (g4 := {| lockedPromise := CatchOf (S n);
                phases := <[S n := Running true]> (phases g3) |}).
  assert (length (phases g2) = S (S n)) as Hlen2.
  { simpl. rewrite !length_app. simpl. fold n. lia. }
  assert (step g (Call false) = Some g1) as Hstep1 by reflexivity.
  assert (step g1 (Call true) = Some g2) as Hstep2 by reflexivity.
  assert (step g2 (Settle n o) = Some g3) as Hstep3.
  { assert (phases g2 !! n = Some (Running false)) as Hn
      by apply (lookup_snoc2_first (phases g)).
    unfold step. by rewrite Hn. }
  assert (phases g3 !! n = Some (Done o)) as Hdone.
  { simpl. apply list_lookup_insert_eq. rewrite !length_app. simpl. fold n. lia. }
  assert (step g3 (Resume (S n)) = Some g4) as Hstep4.
  { unfold step.
    assert (phases g3 !! S n = Some (Awaiting (CatchOf n))) as HSn.
    { simpl. rewrite list_lookup_insert_ne by lia.
      apply (lookup_snoc2_second (phases g)). }
    rewrite HSn. unfold lock_state, promise_of. rewrite Hdone. by destruct o. }
  exists g4. split; [|split].
  - rewrite (run_step _ _ _ _ Hstep1), (run_step _ _ _ _ Hstep2).
    by rewrite (run_step _ _ _ _ Hstep3), (run_step _ _ _ _ Hstep4).
  - simpl. rewrite !list_lookup_insert_ne by lia. by apply lookup_snoc2_old.
  - simpl. apply list_lookup_insert_eq. rewrite length_insert, !length_app. simpl.
    fold n. lia.
Qed.

Lemma spaced_calls_run_one_at_a_time_witness :
  exists g,
    run_spaced init [Call true; Resume 0; Call true; Settle 0 (Err EIO);
                     Resume 1; Call true; Settle 1 (Ok tt); Resume 2] = Some g /\
    ordered_in_flight g <= 1.
Proof.
  eexists. split; [reflexivity|].
  apply (spaced_calls_run_one_at_a_time
           [Call true; Resume 0; Call true; Settle 0 (Err EIO);
            Resume 1; Call true; Settle 1 (Ok tt); Resume 2]).
  reflexivity.
Defined.

Lemma unordered_call_releases_the_lock_witness :
  let g := {| lockedPromise := CatchOf 0; phases := [Running true] |} in
  run init [Call true; Resume 0] = Some g /\
  phases g !! 0 = Some (Running true) /\
  exists g',
    run g [Call false; Call true; Settle 1 (Ok tt); Resume 2] = Some g' /\
    phases g' !! 0 = Some (Running true) /\
    phases g' !! 2 = Some (Running true).
Proof.
  intros g. split; [reflexivity|]. split; [reflexivity|].
  apply (unordered_call_releases_the_lock g 0 (Ok tt)). reflexivity.
Defined.

End SerializerMore.

(** ** Worked instances *)

Lemma findRecord_first_accepted_witness :
  let w := World {[ "db" := three_records ]} [] [] in
  fst (getAllRecords db true w) = Ok [JFalse; JTrue; JNull] /\
  fst (findRecord db is_JTrue false w) = Ok (List.find is_JTrue [JFalse; JTrue; JNull]).
Proof.
  intros w. split; [reflexivity|].
  apply (findRecord_first_accepted (DataType:=literal) "db"
           {[ "db" := three_records ]} [] [JFalse; JTrue; JNull] is_JTrue false).
  reflexivity.
Defined.

Lemma findRecords_all_accepted_witness :
  let w := World {[ "db" := three_records ]} [] [] in
  fst (getAllRecords db true w) = Ok [JFalse; JTrue; JNull] /\
  fst (findRecords db (fun r => negb (is_JTrue r)) true w)
    = Ok (List.filter (fun r => negb (is_JTrue r)) [JFalse; JTrue; JNull]).
Proof.
  intros w. split; [reflexivity|].
  apply (findRecords_all_accepted (DataType:=literal) "db"
           {[ "db" := three_records ]} [] [JFalse; JTrue; JNull]
           (fun r => negb (is_JTrue r)) true).
  reflexivity.
Defined.

Lemma findRecord_stops_at_first_match_witness :
  let content := "false" +:+ nl +:+ "true" +:+ nl +:+ "oops" in
  let fs : gmap string string := {[ "db" := content ]} in
  fs !! "db" = Some content /\
  Text.readline content = ["false"] ++ "true" :: ["oops"] /\
  JSON_parse (DataType:=literal) "oops" = None /\
  fst (findRecord db is_JTrue true (World fs [] [])) = Ok (Some JTrue).
Proof.
  intros content fs. split; [reflexivity|]. split; [reflexivity|].
  split; [reflexivity|].
  apply (findRecord_stops_at_first_match (DataType:=literal) "db" content fs []
           ["false"] ["oops"] "true" [JFalse] JTrue is_JTrue true);
    reflexivity.
Defined.


Lemma addRecords_appends_witness :
  let fs : gmap string string := {[ "db" := "true" +:+ nl ]} in
  fs !! "db" = Some ("true" +:+ nl) /\
  records_of ("true" +:+ nl) = Some [JTrue] /\
  fst ((let* _ := addRecords db [JNull; JFalse] in getAllRecords db true)
         (World fs [] []))
    = Ok ([JTrue] ++ [JNull; JFalse]).
Proof.
  intros fs. split; [reflexivity|]. split; [reflexivity|].
  apply (addRecords_appends (DataType:=literal) "db" "true" fs []
           [JTrue] [JNull; JFalse]); reflexivity.
Defined.



Lemma updateRecords_twice_witness :
  let w := World {[ "db" := three_records ]} [] [] in
  let update := updateRecords db is_JTrue JFalse in
  fst (getAllRecords db true w) = Ok [JFalse; JTrue; JNull] /\
  fst ((let* _ := update in let* _ := update in getAllRecords db true) w)
    = Ok (map (updated is_JTrue JFalse) [JFalse; JTrue; JNull]) /\
  fst ((let* _ := update in getAllRecords db true) w)
    = Ok (map (updated is_JTrue JFalse) [JFalse; JTrue; JNull]).
Proof.
  intros w update. split; [reflexivity|].
  apply (updateRecords_twice (DataType:=literal) "db" {[ "db" := three_records ]} []
           [JFalse; JTrue; JNull] is_JTrue JFalse).
  reflexivity.
Defined.

Lemma deleteRecords_then_find_witness :
  let w := World {[ "db" := three_records ]} [] [] in
  fst (getAllRecords db true w) = Ok [JFalse; JTrue; JNull] /\
  fst ((let* _ := deleteRecords db is_JTrue in findRecord db is_JTrue true) w)
    = Ok None /\
  fst ((let* _ := deleteRecords db is_JTrue in findRecords db is_JTrue true) w)
    = Ok [].
Proof.
  intros w. split; [reflexivity|].
  apply (deleteRecords_then_find (DataType:=literal) "db"
           {[ "db" := three_records ]} [] [JFalse; JTrue; JNull] is_JTrue true).
  reflexivity.
Defined.

Lemma deleteRecords_twice_witness :
  let w := World {[ "db" := three_records ]} [] [] in
  let delete := deleteRecords db is_JTrue in
  fst (getAllRecords db true w) = Ok [JFalse; JTrue; JNull] /\
  fst ((let* _ := delete in let* _ := delete in getAllRecords db true) w)
    = Ok (List.filter (fun r => negb (is_JTrue r)) [JFalse; JTrue; JNull]) /\
  files (snd ((let* _ := delete in delete) w)) !! "db"
    = files (snd (delete w)) !! "db".
Proof.
  intros w delete. split; [reflexivity|].
  apply (deleteRecords_twice (DataType:=literal) "db" {[ "db" := three_records ]} []
           [JFalse; JTrue; JNull] is_JTrue).
  reflexivity.
Defined.

Lemma deleteRecords_removes_tmp_file_witness :
  let w := World {[ "db" := three_records; "db.tmp.ndjson" := "stale" ]} [] [] in
  fst (getAllRecords db true w) = Ok [JFalse; JTrue; JNull] /\
  exists w',
    deleteRecords db (fun _ : literal => false) w = (Ok tt, w') /\
    files w' !! "db.tmp.ndjson" = None.
Proof.
  intros w. split; [reflexivity|].
  apply (deleteRecords_removes_tmp_file (DataType:=literal) "db"
           {[ "db" := three_records; "db.tmp.ndjson" := "stale" ]} []
           [JFalse; JTrue; JNull] (fun _ => false)).
  reflexivity.
Defined.

Lemma getDatabaseSize_after_deleteRecords_witness :
  let w := World {[ "db" := "false" +:+ nl +:+ nl +:+ " true" +:+ nl +:+ "null" ]} [] [] in
  fst (getAllRecords db true w) = Ok [JFalse; JTrue; JNull] /\
  existsb is_JTrue [JFalse; JTrue; JNull] = true /\
  fst ((let* _ := deleteRecords db is_JTrue in getDatabaseSize db) w)
    = Ok (appended_size (List.filter (fun r => negb (is_JTrue r)) [JFalse; JTrue; JNull])).
Proof.
  intros w. split; [reflexivity|]. split; [reflexivity|].
  apply (getDatabaseSize_after_deleteRecords (DataType:=literal) "db"
           {[ "db" := "false" +:+ nl +:+ nl +:+ " true" +:+ nl +:+ "null" ]} []
           [JFalse; JTrue; JNull] is_JTrue); reflexivity.
Defined.
